(** * TGMA (Chronos) memory engine: a shallow embedding of
      [tgma_memory_engine.py] and the properties of its memory lifecycle.

    The Python module keeps two SQLite tables ([chat_logs], [summaries]),
    calls a language model ([fake_llm]) and reads the wall clock.  Here the
    tables are an explicit value, the language model and the clock are an
    oracle threaded through a state-and-exception monad, and every
    statement executed, every model call and every [print] is recorded in a
    chronological trace, so that "is invoked", "is invoked once" and "is
    not invoked" are statements about that trace. *)

From Stdlib Require Import ZArith NArith Ascii String DecimalString.
From stdpp Require Import base tactics option list sorting gmap.

Local Open Scope Z_scope.

(** ** Python strings

    A Python [str] is a sequence of code points.  Literals are written as
    UTF-8 source text and decoded by [u]. *)

Definition str := list N.

Definition utf8_step (st : list N * option N) (b : N) : list N * option N :=
  let flush := match st.2 with Some c => c :: st.1 | None => st.1 end in
  if (b <? 128)%N then (b :: flush, None)
  else if (b <? 192)%N then
    (st.1, match st.2 with
           | Some c => Some (c * 64 + N.land b 63)%N
           | None => None
           end)
  else if (b <? 224)%N then (flush, Some (N.land b 31))
  else if (b <? 240)%N then (flush, Some (N.land b 15))
  else (flush, Some (N.land b 7)).

Definition utf8_decode (bs : list N) : str :=
  let st := fold_left utf8_step bs ([], None) in
  rev (match st.2 with Some c => c :: st.1 | None => st.1 end).

Definition u (s : string) : str :=
  utf8_decode (map (fun b => N_of_ascii (ascii_of_byte b)) (list_byte_of_string s)).
Global Arguments u : simpl never.

(** [sep.join(parts)] *)
Fixpoint join (sep : str) (parts : list str) : str :=
  match parts with
  | [] => []
  | [p] => p
  | p :: rest => p ++ sep ++ join sep rest
  end.

(** [prefix] is a prefix of [s]: what remains of [s] after it. *)
Fixpoint strip_prefix (prefix s : str) : option str :=
  match prefix, s with
  | [], _ => Some s
  | _ :: _, [] => None
  | p :: prefix', c :: s' => if (p =? c)%N then strip_prefix prefix' s' else None
  end.

(** [needle in s] *)
Fixpoint contains (needle s : str) : bool :=
  match strip_prefix needle s with
  | Some _ => true
  | None => match s with
            | [] => false
            | _ :: s' => contains needle s'
            end
  end.

(** [str(n)] for a natural number. *)
Definition str_of_nat (n : nat) : str :=
  u (NilZero.string_of_uint (Nat.to_uint n)).

(** Zero-padded decimal fields of [strftime]. *)
Definition digit_char (n : Z) : N := (48 + Z.to_N (n mod 10))%N.
Definition pad2 (n : Z) : str := [digit_char (n / 10); digit_char n].
Definition pad4 (n : Z) : str :=
  [digit_char (n / 1000); digit_char (n / 100); digit_char (n / 10); digit_char n].

(** ** The Python runtime and the platform

    What the module takes from outside the repository: the Unicode tables
    behind [\d], [int] and [str.strip], and the local time zone behind
    [datetime.fromtimestamp] and [datetime.timestamp].  The ASCII part of
    the tables is fixed below; the rest is a parameter, so every theorem
    holds for whatever the tables and the zone are. *)

Record tm := Tm {
  tm_year : Z; tm_mon : Z; tm_mday : Z; tm_hour : Z; tm_min : Z
}.

Record Runtime := {
  (** decimal value of a non-ASCII code point of category Nd *)
  unicode_nd : N -> option Z;
  (** [str.isspace] on a non-ASCII code point *)
  unicode_space : N -> bool;
  (** [datetime.fromtimestamp(ts)]: local broken-down time *)
  localtime : Z -> tm;
  (** [int(datetime(y, m, d).timestamp())]: epoch second of local midnight *)
  mktime : Z -> Z -> Z -> Z
}.

Definition nl : N := 10%N.

Section Text.
Variable rt : Runtime.

(** The value of a decimal digit, as [\d] and [int] see it. *)
Definition digit_value (c : N) : option Z :=
  if (c <? 48)%N then None
  else if (c <=? 57)%N then Some (Z.of_N c - 48)
  else if (c <? 128)%N then None
  else unicode_nd rt c.

Definition is_digit (c : N) : bool := bool_decide (is_Some (digit_value c)).

(** [int(s)] on a string of decimal digits. *)
Definition int_of_digits (s : str) : option Z :=
  foldl (fun acc c => a ← acc; d ← digit_value c; Some (a * 10 + d)) (Some 0) s.

Definition is_space (c : N) : bool :=
  if (c <? 128)%N
  then bool_decide ((9 <= c <= 13)%N \/ (28 <= c <= 32)%N)
  else unicode_space rt c.

Fixpoint lstrip (s : str) : str :=
  match s with
  | c :: s' => if is_space c then lstrip s' else s
  | [] => []
  end.

(** [s.strip()] *)
Definition strip (s : str) : str := rev (lstrip (rev (lstrip s))).

(** [t.strftime("%H:%M")], [t.strftime("%m-%d %H:%M")] and
    [t.strftime("%Y年%m月%d日")], for the years 1000 to 9999 that the
    timestamps of [time.time()] fall in. *)
Definition strftime_HM (t : tm) : str :=
  pad2 (tm_hour t) ++ u ":" ++ pad2 (tm_min t).
Definition strftime_mdHM (t : tm) : str :=
  pad2 (tm_mon t) ++ u "-" ++ pad2 (tm_mday t) ++ u " " ++ strftime_HM t.
Definition strftime_date (t : tm) : str :=
  pad4 (tm_year t) ++ u "年" ++ pad2 (tm_mon t) ++ u "月" ++ pad2 (tm_mday t) ++ u "日".

(** [t.date()] *)
Definition tm_date (t : tm) : Z * Z * Z := (tm_year t, tm_mon t, tm_mday t).
End Text.

(** ** [datetime.strptime(date_str, "%Y-%m-%d")]

    The format compiles to the pattern
    [(\d\d\d\d)-(1[0-2]|0[1-9]|[1-9])-(3[01]|[12]\d|0[1-9]|[1-9]| [1-9])],
    which must consume the whole string; the fields then have to name a
    day of the proleptic Gregorian calendar with year at least 1.  [None]
    is Python's [ValueError]. *)

Definition is_leap (y : Z) : bool :=
  (y mod 4 =? 0) && (negb (y mod 100 =? 0) || (y mod 400 =? 0)).

Definition days_in_month (y m : Z) : Z :=
  if m =? 2 then (if is_leap y then 29 else 28)
  else if (m =? 4) || (m =? 6) || (m =? 9) || (m =? 11) then 30
  else 31.

Definition in_range (lo hi c : N) : bool := (lo <=? c)%N && (c <=? hi)%N.

Section Strptime.
Variable rt : Runtime.

(** [1[0-2]|0[1-9]|[1-9]] *)
Definition month_field (s : str) : option Z :=
  match s with
  | [a; b] =>
      if (a =? 49)%N && in_range 48 50 b then Some (10 + (Z.of_N b - 48))
      else if (a =? 48)%N && in_range 49 57 b then Some (Z.of_N b - 48)
      else None
  | [a] => if in_range 49 57 a then Some (Z.of_N a - 48) else None
  | _ => None
  end.

(** [3[01]|[12]\d|0[1-9]|[1-9]| [1-9]] *)
Definition day_field (s : str) : option Z :=
  match s with
  | [a; b] =>
      if (a =? 51)%N && in_range 48 49 b then Some (30 + (Z.of_N b - 48))
      else if in_range 49 50 a
      then d ← digit_value rt b; Some ((Z.of_N a - 48) * 10 + d)
      else if ((a =? 48)%N || (a =? 32)%N) && in_range 49 57 b
      then Some (Z.of_N b - 48)
      else None
  | [a] => if in_range 49 57 a then Some (Z.of_N a - 48) else None
  | _ => None
  end.

(** The text before the first ['-'] and the text after it. *)
Fixpoint split_dash (s : str) : option (str * str) :=
  match s with
  | [] => None
  | c :: s' =>
      if (c =? 45)%N then Some ([], s')
      else '(a, b) ← split_dash s'; Some (c :: a, b)
  end.

Definition strptime (s : str) : option (Z * Z * Z) :=
  match s with
  | y1 :: y2 :: y3 :: y4 :: dash :: rest =>
      if (dash =? 45)%N then
        y ← int_of_digits rt [y1; y2; y3; y4];
        '(ms, ds) ← split_dash rest;
        m ← month_field ms;
        d ← day_field ds;
        if (1 <=? y) && (d <=? days_in_month y m) then Some (y, m, d) else None
      else None
  | _ => None
  end.
End Strptime.

(** ** The recall directive

    [re.search(r"\[RECALL\|(\d{4}-\d{2}-\d{2})\|(.*?)\]", reply)]: the
    leftmost position at which the pattern matches; [.] is any character
    but a newline and [*?] is lazy, so the query runs to the first [']']. *)

Section Directive.
Variable rt : Runtime.

(** [(.*?)\]] anchored at the head of [s] *)
Fixpoint lazy_query (s : str) : option str :=
  match s with
  | [] => None
  | c :: s' =>
      if (c =? 93)%N then Some []
      else if (c =? nl)%N then None
      else q ← lazy_query s'; Some (c :: q)
  end.

(** [\d{4}-\d{2}-\d{2}] anchored at the head of [s]: the ten characters
    matched and the rest. *)
Definition date_shape (s : str) : option (str * str) :=
  match s with
  | d1 :: d2 :: d3 :: d4 :: a :: d5 :: d6 :: b :: d7 :: d8 :: rest =>
      if forallb (is_digit rt) [d1; d2; d3; d4; d5; d6; d7; d8]
         && (a =? 45)%N && (b =? 45)%N
      then Some ([d1; d2; d3; d4; a; d5; d6; b; d7; d8], rest)
      else None
  | _ => None
  end.

(** The whole pattern anchored at the head of [s]: the two groups. *)
Definition match_here (s : str) : option (str * str) :=
  r ← strip_prefix (u "[RECALL|") s;
  '(date, r') ← date_shape r;
  r'' ← strip_prefix (u "|") r';
  q ← lazy_query r'';
  Some (date, q).

Fixpoint re_search (s : str) : option (str * str) :=
  match match_here s with
  | Some g => Some g
  | None => match s with
            | [] => None
            | _ :: s' => re_search s'
            end
  end.
End Directive.

(** ** The database

    [chat_logs] in rowid order, [summaries] keyed by its primary key
    [date], and the AUTOINCREMENT counter of [chat_logs].  The column [id]
    is the field [log_id].  The SQLite layer is taken to be available:
    statements do not fail. *)

Record ChatLog := {
  log_id : Z;
  user_id : str;
  role : str;
  content : str;
  timestamp : Z;
  summarized : Z
}.

Record DB := {
  chat_logs : list ChatLog;
  summaries : gmap str str;
  seq : Z
}.

(** [AsyncDB.init] on a fresh file *)
Definition empty_db : DB := {| chat_logs := []; summaries := ∅; seq := 0 |}.

(** [ORDER BY timestamp]: rows with equal timestamps stay in rowid order
    (SQL leaves their order open; this is what SQLite's sorter does). *)
Fixpoint insert_by (before : Z -> Z -> bool) (x : ChatLog) (l : list ChatLog)
  : list ChatLog :=
  match l with
  | [] => [x]
  | y :: l' =>
      if before (timestamp x) (timestamp y) then x :: y :: l'
      else y :: insert_by before x l'
  end.

Definition order_by (before : Z -> Z -> bool) (l : list ChatLog) : list ChatLog :=
  foldr (insert_by before) [] l.

Definition order_by_timestamp_asc := order_by Z.leb.
Definition order_by_timestamp_desc := order_by Z.geb.

(** [INSERT INTO chat_logs (user_id, role, content, timestamp)] *)
Definition insert_chat (user r c : str) (ts : Z) (d : DB) : DB :=
  {| chat_logs := chat_logs d ++
       [{| log_id := seq d + 1; user_id := user; role := r; content := c;
           timestamp := ts; summarized := 0 |}];
     summaries := summaries d;
     seq := seq d + 1 |}.

(** [WHERE user_id=? AND summarized=0 ORDER BY timestamp ASC] *)
Definition select_unsummarized (user : str) (d : DB) : list ChatLog :=
  order_by_timestamp_asc
    (filter (fun r => user_id r = user /\ summarized r = 0) (chat_logs d)).

Definition set_summarized (r : ChatLog) : ChatLog :=
  {| log_id := log_id r; user_id := user_id r; role := role r;
     content := content r; timestamp := timestamp r; summarized := 1 |}.

(** [UPDATE chat_logs SET summarized=1 WHERE id IN (...)] *)
Definition mark (ids : list Z) (r : ChatLog) : ChatLog :=
  if bool_decide (log_id r ∈ ids) then set_summarized r else r.

Definition update_summarized (ids : list Z) (d : DB) : DB :=
  {| chat_logs := mark ids <$> chat_logs d;
     summaries := summaries d;
     seq := seq d |}.

(** [INSERT OR REPLACE INTO summaries (date,content)] *)
Definition replace_summary (date c : str) (d : DB) : DB :=
  {| chat_logs := chat_logs d;
     summaries := <[date := c]> (summaries d);
     seq := seq d |}.

(** [WHERE timestamp>=? AND timestamp<? ORDER BY timestamp ASC] *)
Definition select_by_window (s e : Z) (d : DB) : list ChatLog :=
  order_by_timestamp_asc
    (filter (fun r => s <= timestamp r /\ timestamp r < e) (chat_logs d)).

(** [WHERE user_id=? ORDER BY timestamp DESC LIMIT ?] *)
Definition select_recent (user : str) (limit : nat) (d : DB) : list ChatLog :=
  take limit
    (order_by_timestamp_desc (filter (fun r => user_id r = user) (chat_logs d))).

(** ** Effects

    A call either returns or raises; the world it runs in holds the
    database, the state of the outside (language model and clock) and the
    trace of what has happened so far, oldest first. *)

Inductive exn := ReasoningUnavailable | ValueError.

Inductive res (A : Type) :=
| Ok (a : A)
| Raise (e : exn).
Arguments Ok {A} a.
Arguments Raise {A} e.

Inductive Event :=
| EvLLM (prompt : str) (reply : option str)
| EvPrint (line : str)
| EvAddChat (user r c : str) (ts : Z)
| EvGetUnsummarized (user : str)
| EvMarkSummarized (ids : list Z)
| EvSaveSummary (date c : str)
| EvGetLogsByDate (date : str)
| EvGetRecent (user : str) (limit : nat)
| EvRecall (date query : str)
| EvTrySummarize (user : str).

Record World (E : Type) := {
  db : DB;
  env : E;
  trace : list Event
}.
Arguments db {E} w.
Arguments env {E} w.
Arguments trace {E} w.

Definition M (E A : Type) : Type := World E -> res A * World E.

Definition ret {E A} (a : A) : M E A := fun w => (Ok a, w).

Definition bind {E A B} (m : M E A) (k : A -> M E B) : M E B :=
  fun w => match m w with
           | (Ok a, w') => k a w'
           | (Raise e, w') => (Raise e, w')
           end.

Definition raise {E A} (e : exn) : M E A := fun w => (Raise e, w).

Definition emit {E} (ev : Event) : M E unit :=
  fun w => (Ok tt, {| db := db w; env := env w; trace := trace w ++ [ev] |}).

Definition read_db {E A} (q : DB -> A) : M E A := fun w => (Ok (q (db w)), w).

Definition write_db {E} (f : DB -> DB) : M E unit :=
  fun w => (Ok tt, {| db := f (db w); env := env w; trace := trace w |}).

Declare Scope engine_scope.
Delimit Scope engine_scope with engine.
Notation "x <- m ;; k" := (bind m (fun x => k))
  (at level 100, m at next level, right associativity) : engine_scope.
Notation "m ;; k" := (bind m (fun _ => k))
  (at level 100, right associativity) : engine_scope.

Record Msg := { msg_role : str; msg_content : str }.

Definition DEFAULT_USER : str := u "Standard_User".
Definition SUMMARIZE_THRESHOLD : nat := 30.

Definition NO_EVENT : str := u "[NO_EVENT]".
Definition no_record : str := u "（未发现当天的原始记录）".

Section Engine.
Context {E : Type}.
(** the Python runtime and the local time zone *)
Variable rt : Runtime.
(** the reasoning step: [None] is a failed call *)
Variable llm : str -> E -> option str * E.
(** [int(time.time())] *)
Variable time_time : E -> Z * E.

Local Open Scope engine_scope.

Definition call_llm (prompt : str) : M E str :=
  fun w =>
    let '(r, e') := llm prompt (env w) in
    let w' := {| db := db w; env := e'; trace := trace w ++ [EvLLM prompt r] |} in
    match r with
    | Some s => (Ok s, w')
    | None => (Raise ReasoningUnavailable, w')
    end.

Definition clock : M E Z :=
  fun w =>
    let '(t, e') := time_time (env w) in
    (Ok t, {| db := db w; env := e'; trace := trace w |}).

Definition print (line : str) : M E unit := emit (EvPrint line).

(** *** [AsyncDB] *)

Definition add_chat (user r c : str) : M E unit :=
  ts <- clock ;;
  emit (EvAddChat user r c ts) ;;
  write_db (insert_chat user r c ts).

Definition get_unsummarized_logs (user : str) : M E (list ChatLog) :=
  emit (EvGetUnsummarized user) ;;
  read_db (select_unsummarized user).

Definition mark_summarized (ids : list Z) : M E unit :=
  match ids with
  | [] => ret tt
  | _ => emit (EvMarkSummarized ids) ;; write_db (update_summarized ids)
  end.

Definition save_summary (date_str c : str) : M E unit :=
  emit (EvSaveSummary date_str c) ;;
  write_db (replace_summary date_str c).

Definition get_logs_by_date (date_str : str) : M E (list ChatLog) :=
  match strptime rt date_str with
  | None => raise ValueError
  | Some (y, m, d) =>
      let s := mktime rt y m d in
      let e := s + 86400 in
      emit (EvGetLogsByDate date_str) ;;
      read_db (select_by_window s e)
  end.

Definition get_recent_history (user : str) (limit : nat) : M E (list ChatLog) :=
  emit (EvGetRecent user limit) ;;
  read_db (select_recent user limit).

(** *** Module 1: time tags *)

Definition time_tag (now t : tm) : str :=
  if bool_decide (tm_date t = tm_date now) then strftime_HM t else strftime_mdHM t.

Definition format_row (now : tm) (row : ChatLog) : Msg :=
  let t := localtime rt (timestamp row) in
  {| msg_role := role row;
     msg_content := u "[" ++ time_tag now t ++ u "] " ++ content row |}.

Definition get_formatted_history (user : str) (limit : nat) : M E (list Msg) :=
  rows <- get_recent_history user limit ;;
  now <- clock ;;
  ret (format_row (localtime rt now) <$> reverse rows).

(** *** Module 2: the historian *)

Definition historian_line (log : ChatLog) : str :=
  u "[" ++ strftime_HM (localtime rt (timestamp log)) ++ u "] "
    ++ role log ++ u ": " ++ content log.

Definition historian_date (logs : list ChatLog) : str :=
  match logs with
  | [] => []
  | log :: _ => strftime_date (localtime rt (timestamp log))
  end.

Definition historian_prompt (logs : list ChatLog) : str :=
  strip rt (join [nl]
    [ u "你是冷静的第三方史官。";
      u "任务：将聊天记录浓缩为客观事实，用于 AI 的长期记忆。";
      u "规则：";
      u "1. 每条事实必须以 [日期+模糊时段] 开头。";
      u "2. 使用第三人称描述事件（Master，AI）。";
      u "3. 只记录核心信息，无内容则回复 [NO_EVENT]。";
      [];
      u "日期锚点：" ++ historian_date logs;
      u "原始记录：";
      join [nl] (historian_line <$> logs) ]).

Definition run_historian_ai (logs : list ChatLog) : M E unit :=
  match logs with
  | [] => ret tt
  | _ =>
      let date_str := historian_date logs in
      summary <- call_llm (historian_prompt logs) ;;
      (if contains NO_EVENT summary then ret tt
       else save_summary date_str summary) ;;
      mark_summarized (log_id <$> logs)
  end.

Definition historian_banner (n : nat) : str :=
  u "[史官] 启动！正在压缩 " ++ str_of_nat n ++ u " 条记录，保留 2 条作为上下文衔接。".

Definition try_summarize (user : str) : M E unit :=
  emit (EvTrySummarize user) ;;
  logs <- get_unsummarized_logs user ;;
  if bool_decide (SUMMARIZE_THRESHOLD + 2 <= length logs)%nat then
    let logs_to_process := take (length logs - 2) logs in
    print (historian_banner (length logs_to_process)) ;;
    run_historian_ai logs_to_process
  else ret tt.

(** *** Module 3: the investigator *)

Definition recall_line (log : ChatLog) : str :=
  role log ++ u ": " ++ content log.

Definition recall_prompt (query : str) (logs : list ChatLog) : str :=
  strip rt (join [nl]
    [ u "你是一个严谨的记忆调查员。";
      u "任务：根据提供的【原始日志】回答用户的疑问。";
      u "规则：";
      u "1. 只能根据提供的日志内容回答，禁止自行推理或编造。";
      u "2. 如果日志中找不到相关细节，请明确回复：“相关记忆已模糊，未发现匹配细节”。";
      [];
      u "用户疑问：" ++ query;
      u "【原始日志内容】：";
      join [nl] (recall_line <$> logs) ]).

Definition internal_memory_recall (date_str query : str) : M E str :=
  emit (EvRecall date_str query) ;;
  logs <- get_logs_by_date date_str ;;
  match logs with
  | [] => ret no_record
  | _ => call_llm (recall_prompt query logs)
  end.

(** *** The main reasoning loop *)

Definition render (messages : list Msg) : str :=
  join [nl] (msg_content <$> messages).

Definition evidence_msg (evidence : str) : Msg :=
  {| msg_role := u "system";
     msg_content := u "【打捞结果汇报】：" ++ [nl] ++ evidence ++ [nl]
                      ++ u "请结合此结果对用户做出最终回复。" |}.

Definition user_msg (c : str) : Msg := {| msg_role := u "user"; msg_content := c |}.
Definition assistant_msg (c : str) : Msg :=
  {| msg_role := u "assistant"; msg_content := c |}.

Definition recall_banner (date query : str) : str :=
  u "[系统拦截] AI 正在尝试打捞 " ++ date ++ u " 的记忆：" ++ query.

Definition think_and_reply (user_input user : str) : M E str :=
  add_chat user (u "user") user_input ;;
  history <- get_formatted_history user 30 ;;
  let messages := history ++ [user_msg user_input] in
  reply <- call_llm (render messages) ;;
  reply <-
    match re_search rt reply with
    | Some (date, query) =>
        print (recall_banner date query) ;;
        evidence <- internal_memory_recall date query ;;
        let messages := messages ++ [assistant_msg reply; evidence_msg evidence] in
        call_llm (render messages)
    | None => ret reply
    end ;;
  add_chat user (u "assistant") reply ;;
  ret reply.

(** *** [main]: one round of the loop, after the [exit]/[quit] test *)

Definition main_turn (msg : str) : M E unit :=
  response <- think_and_reply msg DEFAULT_USER ;;
  print (u "AI: " ++ response) ;;
  try_summarize DEFAULT_USER.

End Engine.


(** ** Vocabulary of the statements *)

Definition with_trace {E} (w : World E) (evs : list Event) : World E :=
  {| db := db w; env := env w; trace := trace w ++ evs |}.

(** The compaction batch: everything but the last two. *)
Definition batch_of (logs : list ChatLog) : list ChatLog :=
  take (length logs - 2) logs.

Definition turns_of (user : str) (d : DB) : list ChatLog :=
  filter (fun r => user_id r = user) (chat_logs d).

Definition uncompacted (user : str) (d : DB) : list ChatLog :=
  filter (fun r => user_id r = user /\ summarized r = 0) (chat_logs d).

Definition ts_le (a b : ChatLog) : Prop := timestamp a <= timestamp b.

(** [id] is a primary key handed out by the AUTOINCREMENT counter. *)
Definition keys_ok (d : DB) : Prop :=
  NoDup (log_id <$> chat_logs d) /\ Forall (fun r => log_id r <= seq d) (chat_logs d).

(** The soft-landing floor. *)
Definition floor_ok (d : DB) : Prop :=
  forall user, (length (turns_of user d) `min` 2 <= length (uncompacted user d))%nat.

Definition db_inv (d : DB) : Prop := keys_ok d /\ floor_ok d.

(** The three writes the module performs: a turn is recorded, a summary is
    stored, a compaction batch (the uncompacted turns of a user but the last
    two, at least [SUMMARIZE_THRESHOLD] of them) is marked. *)
Inductive db_step : DB -> DB -> Prop :=
| step_insert user r c ts d :
    db_step d (insert_chat user r c ts d)
| step_summary date c d :
    db_step d (replace_summary date c d)
| step_compact user d :
    (SUMMARIZE_THRESHOLD + 2 <= length (select_unsummarized user d))%nat ->
    db_step d (update_summarized (log_id <$> batch_of (select_unsummarized user d)) d).

(** New turns are only ever appended, uncompacted; nothing recorded
    earlier changes. *)
Definition appended (d d' : DB) : Prop :=
  exists new, chat_logs d' = chat_logs d ++ new
              /\ Forall (fun r => summarized r = 0) new.

(** The events of the historian: its trigger, its query and its writes. *)
Definition is_historian_event (ev : Event) : bool :=
  match ev with
  | EvTrySummarize _ | EvGetUnsummarized _ | EvMarkSummarized _ | EvSaveSummary _ _ => true
  | _ => false
  end.

Definition is_write (ev : Event) : bool :=
  match ev with
  | EvMarkSummarized _ | EvSaveSummary _ _ => true
  | _ => false
  end.

(** The calls of the investigator and of the reasoning step in a trace. *)
Definition recalls (tr : list Event) : list (str * str) :=
  omap (fun ev => match ev with EvRecall d q => Some (d, q) | _ => None end) tr.

Definition llm_calls (tr : list Event) : list (str * option str) :=
  omap (fun ev => match ev with EvLLM p r => Some (p, r) | _ => None end) tr.

Definition trigger_events (user : str) : list Event :=
  [EvTrySummarize user; EvGetUnsummarized user].

(** The text [[RECALL|date|query]]. *)
Definition directive (date query : str) : str :=
  u "[RECALL|" ++ date ++ u "|" ++ query ++ u "]".

(** The row that [add_chat] appends. *)
Definition recorded_turn (user r c : str) (ts : Z) (d : DB) : ChatLog :=
  {| log_id := seq d + 1; user_id := user; role := r; content := c;
     timestamp := ts; summarized := 0 |}.

(** A call moves the world along [R], however it ends. *)
Definition evolves {E A} (R : relation (World E)) (m : M E A) : Prop :=
  forall w, R w (m w).2.

(** Three such relations: the tables move by [db_step]s; the tables only
    gain uncompacted turns, the summaries stay and no event of the historian
    happens; the tables stay as they are. *)
Definition steps {E} (w w' : World E) : Prop := rtc db_step (db w) (db w').

Definition turn_only {E} (w w' : World E) : Prop :=
  appended (db w) (db w')
  /\ summaries (db w') = summaries (db w)
  /\ exists evs, trace w' = trace w ++ evs
                 /\ Forall (fun ev => is_historian_event ev = false) evs.

Definition same_db {E} (w w' : World E) : Prop := db w' = db w.

Section Phases.
Context {E : Type}.
Variable rt : Runtime.
Variable llm : str -> E -> option str * E.
Variable time_time : E -> Z * E.

Local Open Scope engine_scope.

(** What the historian writes for an answer [s] on a batch [logs]. *)
Definition summary_written (logs : list ChatLog) (s : str) (d : DB) : DB :=
  if contains NO_EVENT s then d else replace_summary (historian_date rt logs) s d.

Definition summary_events (logs : list ChatLog) (s : str) : list Event :=
  if contains NO_EVENT s then [] else [EvSaveSummary (historian_date rt logs) s].


(** Lines 171 to 174 of [think_and_reply]: record the input, render the
    history, build the context. *)
Definition build_context (user_input user : str) : M E (list Msg) :=
  add_chat time_time user (u "user") user_input ;;
  history <- get_formatted_history rt time_time user 30 ;;
  ret (history ++ [user_msg user_input]).

(** Lines 180 to 187: the recall and the second reasoning call. *)
Definition second_reason (messages : list Msg) (reply date query : str) : M E str :=
  print (recall_banner date query) ;;
  evidence <- internal_memory_recall rt llm date query ;;
  call_llm llm (render (messages ++ [assistant_msg reply; evidence_msg evidence])).

(** Lines 178 to 190: everything after the first reasoning call. *)
Definition conclude (user : str) (messages : list Msg) (reply : str) : M E str :=
  reply' <- match re_search rt reply with
            | Some (date, query) => second_reason messages reply date query
            | None => ret reply
            end ;;
  add_chat time_time user (u "assistant") reply' ;;
  ret reply'.

(** The tables once the input is recorded, the world in which the first
    reasoning call is made, and the history rendered for it. *)
Definition recorded (user_input user : str) (w : World E) : DB :=
  insert_chat user (u "user") user_input (time_time (env w)).1 (db w).

Definition at_first_reason (user_input user : str) (w : World E) : World E :=
  {| db := recorded user_input user w;
     env := (time_time (time_time (env w)).2).2;
     trace := trace w ++ [EvAddChat user (u "user") user_input (time_time (env w)).1;
                          EvGetRecent user 30] |}.

Definition history_at (user_input user : str) (w : World E) : list Msg :=
  format_row rt (localtime rt (time_time (time_time (env w)).2).1)
    <$> reverse (select_recent user 30 (recorded user_input user w)).

(** Reachable worlds: a fresh database, then any sequence of calls of the
    module's entry points, whatever the reasoning step and the clock answer
    and however each call ends. *)
Inductive reachable : World E -> Prop :=
| reach_init e :
    reachable {| db := empty_db; env := e; trace := [] |}
| reach_think_and_reply w input user :
    reachable w -> reachable (think_and_reply rt llm time_time input user w).2
| reach_try_summarize w user :
    reachable w -> reachable (try_summarize rt llm user w).2
| reach_internal_memory_recall w date query :
    reachable w -> reachable (internal_memory_recall rt llm date query w).2
| reach_main_turn w msg :
    reachable w -> reachable (main_turn rt llm time_time msg w).2.
End Phases.

(** ** A concrete platform and concrete oracles

    ASCII-only tables and UTC as the local zone; a scripted reasoning step
    that hands out prepared replies in order ([None] is a failed call); a
    clock that advances one second per reading; and the demonstration
    [fake_llm] of the module. *)

Definition days_from_civil (y m d : Z) : Z :=
  let y := if m <=? 2 then y - 1 else y in
  let era := y / 400 in
  let yoe := y - era * 400 in
  let doy := (153 * (if 2 <? m then m - 3 else m + 9) + 2) / 5 + d - 1 in
  let doe := yoe * 365 + yoe / 4 - yoe / 100 + doy in
  era * 146097 + doe - 719468.

Definition civil_from_days (z : Z) : Z * Z * Z :=
  let z := z + 719468 in
  let era := z / 146097 in
  let doe := z - era * 146097 in
  let yoe := (doe - doe / 1460 + doe / 36524 - doe / 146096) / 365 in
  let y := yoe + era * 400 in
  let doy := doe - (365 * yoe + yoe / 4 - yoe / 100) in
  let mp := (5 * doy + 2) / 153 in
  let d := doy - (153 * mp + 2) / 5 + 1 in
  let m := if mp <? 10 then mp + 3 else mp - 9 in
  (if m <=? 2 then y + 1 else y, m, d).

Definition utc_localtime (ts : Z) : tm :=
  let '(y, m, d) := civil_from_days (ts / 86400) in
  let sod := ts mod 86400 in
  {| tm_year := y; tm_mon := m; tm_mday := d;
     tm_hour := sod / 3600; tm_min := (sod mod 3600) / 60 |}.

Definition utc : Runtime :=
  {| unicode_nd := fun _ => None;
     unicode_space := fun _ => false;
     localtime := utc_localtime;
     mktime := fun y m d => days_from_civil y m d * 86400 |}.

Record Script := { replies : list (option str); now : Z }.

Definition script_llm (prompt : str) (e : Script) : option str * Script :=
  match replies e with
  | [] => (None, e)
  | r :: rest => (r, {| replies := rest; now := now e |})
  end.

Definition script_time (e : Script) : Z * Script :=
  (now e, {| replies := replies e; now := now e + 1 |}).

Definition fake_llm (prompt : str) : str :=
  if contains (u "昨天聊了什么") prompt
  then u "[RECALL|2026-02-26|昨天下午我们讨论的关于橘猫的话题]"
  else u "这是一条带有时间感的模拟回复：我已经记下你刚才说的话啦～".

Definition fake_llm_step (prompt : str) (e : Script) : option str * Script :=
  (Some (fake_llm prompt), e).

Definition start (d : DB) (e : Script) : World Script :=
  {| db := d; env := e; trace := [] |}.

(** *** Concrete worlds *)

(** 2026-02-27 00:00:00 UTC *)
Definition t0 : Z := 1772150400.

Definition quiet : Script := {| replies := []; now := t0 |}.

Definition scripted (rs : list (option str)) : World Script :=
  start empty_db {| replies := rs; now := t0 |}.

(** [n] conversation turns with the demonstration model, no trigger check. *)
Fixpoint chat (n : nat) (w : World Script) : World Script :=
  match n with
  | O => w
  | S n' => chat n' (think_and_reply utc fake_llm_step script_time (u "hello") DEFAULT_USER w).2
  end.

(** [n] rounds of [main] with the demonstration model. *)
Fixpoint rounds (n : nat) (w : World Script) : World Script :=
  match n with
  | O => w
  | S n' => rounds n' (main_turn utc fake_llm_step script_time (u "hello") w).2
  end.

(** 32 uncompacted turns of the default user at distinct timestamps. *)
Definition busy : World Script := chat 16 (start empty_db quiet).




(** A directive of the right shape whose date is no calendar date. *)
Definition thirteenth_month : World Script :=
  scripted [Some (u "[RECALL|2026-13-45|cats]"); None].

(** A near-match with the date written day first. *)
Definition day_first : World Script := scripted [Some (u "[RECALL|26-02-2026|cats]")].


(** ** More vocabulary, and the loop of [main] *)

Definition ts_ge (a b : ChatLog) : Prop := timestamp b <= timestamp a.

(** The turns recorded in a trace. *)
Definition add_chats (tr : list Event) : list (str * str * str) :=
  omap (fun ev => match ev with EvAddChat us r c _ => Some (us, r, c) | _ => None end) tr.

Section FirstReason.
Context {E : Type}.
Variable rt : Runtime.
Variable llm : str -> E -> option str * E.
Variable time_time : E -> Z * E.

(** The world right after the first reasoning call of a turn, and what
    the call answered. *)
Definition after_first_reason (input user : str) (w : World E) : World E :=
  let w1 := at_first_reason time_time input user w in
  let p := render (history_at rt time_time input user w ++ [user_msg input]) in
  {| db := db w1; env := (llm p (env w1)).2;
     trace := trace w1 ++ [EvLLM p (llm p (env w1)).1] |}.

Definition first_reply (input user : str) (w : World E) : option str :=
  (llm (render (history_at rt time_time input user w ++ [user_msg input]))
       (env (at_first_reason time_time input user w))).1.

End FirstReason.

(** The texts of the demonstration model. *)

Definition recall_phrase : str := u "昨天聊了什么".
Definition demo_directive : str := u "[RECALL|2026-02-26|昨天下午我们讨论的关于橘猫的话题]".
Definition demo_reply : str := u "这是一条带有时间感的模拟回复：我已经记下你刚才说的话啦～".

(** [r'] is [r], possibly marked since. *)
Definition same_turn (r r' : ChatLog) : Prop :=
  log_id r' = log_id r /\ user_id r' = user_id r /\ role r' = role r
  /\ content r' = content r /\ timestamp r' = timestamp r
  /\ (summarized r' = summarized r \/ summarized r' = 1).

(** Every row of [d] is still in [d'], at its place. *)
Definition durable (d d' : DB) : Prop :=
  forall i r, chat_logs d !! i = Some r ->
    exists r', chat_logs d' !! i = Some r' /\ same_turn r r'.

(** *** [main]

    The lines typed are a list; [input] running out of lines (Python's
    [EOFError], which nothing catches and which ends the program) stops the
    loop with [EndOfInput], after the prompt was printed.  [str.lower] is a
    parameter, as the Unicode tables are.  [db.init] creates the two tables
    when they are missing; a [DB] always has them. *)

Inductive stopped := ByCommand | EndOfInput.

Section Main.
Context {E : Type}.
Variable rt : Runtime.
Variable llm : str -> E -> option str * E.
Variable time_time : E -> Z * E.
(** [str.lower] *)
Variable lower : str -> str.

Local Open Scope engine_scope.

(** [msg.lower() in ("exit", "quit")] *)
Definition is_exit_command (msg : str) : bool :=
  bool_decide (lower msg = u "exit" \/ lower msg = u "quit").

Fixpoint main_loop (lines : list str) : M E stopped :=
  match lines with
  | [] => print (u "你: ") ;; ret EndOfInput
  | msg :: rest =>
      print (u "你: ") ;;
      if is_exit_command msg then ret ByCommand
      else main_turn rt llm time_time msg ;; main_loop rest
  end.

Definition main (lines : list str) : M E stopped :=
  print (u "==========================================") ;;
  print (u "🌸 TGMA (Chronos) 记忆引擎已就绪") ;;
  print (u "输入 'exit' 退出程序") ;;
  print (u "==========================================") ;;
  main_loop lines.

(** The lines before the first exit command. *)
Fixpoint served (lines : list str) : list str :=
  match lines with
  | [] => []
  | msg :: rest => if is_exit_command msg then [] else msg :: served rest
  end.
End Main.

Definition ascii_lower (s : str) : str :=
  (fun c => if in_range 65 90 c then (c + 32)%N else c) <$> s.

(** The first turn of [busy]. *)
Definition first_turn : ChatLog := recorded_turn DEFAULT_USER (u "user") (u "hello") t0 empty_db.

(** [busy] and one more turn, of a guest. *)
Definition guest : str := u "Guest".
Definition shared : World Script :=
  (think_and_reply utc fake_llm_step script_time (u "hi") guest busy).2.

(** 30 uncompacted turns of the default user. *)
Definition nearly_full : World Script := chat 15 (start empty_db quiet).

(** The tables of [busy], a reasoning step about to answer twice. *)
Definition two_answers : World Script :=
  {| db := db busy;
     env := {| replies := [Some (u "first account"); Some (u "second account")]; now := t0 |};
     trace := [] |}.

(** ** Ordering rows by timestamp *)

Section OrderBy.
Variable before : Z -> Z -> bool.

Lemma insert_by_Permutation x l : insert_by before x l ≡ₚ x :: l.
Proof.
  induction l as [|y l IH]; simpl; [done|].
  destruct (before _ _); [done|].
  rewrite IH. apply Permutation_swap.
Qed.

Lemma order_by_Permutation l : order_by before l ≡ₚ l.
Proof.
  induction l as [|x l IH]; simpl; [done|].
  rewrite insert_by_Permutation. by f_equiv.
Qed.

Lemma order_by_length l : length (order_by before l) = length l.
Proof. by rewrite order_by_Permutation. Qed.

Lemma elem_of_order_by r l : r ∈ order_by before l ↔ r ∈ l.
Proof. by rewrite order_by_Permutation. Qed.
End OrderBy.

Lemma insert_by_asc_sorted x l :
  StronglySorted ts_le l -> StronglySorted ts_le (insert_by Z.leb x l).
Proof.
  induction 1 as [|y l Hs IH Hall]; simpl.
  - repeat constructor.
  - destruct (Z.leb_spec (timestamp x) (timestamp y)) as [Hle|Hlt].
    + constructor; [by constructor|].
      constructor; [done|].
      eapply Forall_impl; [exact Hall|]. unfold ts_le. intros; lia.
    + constructor; [done|].
      rewrite insert_by_Permutation. constructor; [|done].
      unfold ts_le. lia.
Qed.

Lemma order_by_asc_sorted l : StronglySorted ts_le (order_by_timestamp_asc l).
Proof.
  induction l as [|x l IH]; simpl; [constructor|].
  by apply insert_by_asc_sorted.
Qed.


(** ** What the historian's trigger does, case by case *)

Section HistorianFacts.
Context {E : Type}.
Variable rt : Runtime.
Variable llm : str -> E -> option str * E.
Variable time_time : E -> Z * E.

Lemma run_historian_ai_nil w :
  run_historian_ai rt llm [] w = (Ok tt, w).
Proof. done. Qed.

Lemma run_historian_ai_fail logs w e' :
  logs ≠ [] ->
  llm (historian_prompt rt logs) (env w) = (None, e') ->
  run_historian_ai rt llm logs w =
    (Raise ReasoningUnavailable,
     {| db := db w; env := e';
        trace := trace w ++ [EvLLM (historian_prompt rt logs) None] |}).
Proof.
  intros Hne Hllm. destruct logs as [|l logs]; [done|].
  unfold run_historian_ai, bind, call_llm. by rewrite Hllm.
Qed.

Lemma run_historian_ai_ok logs w s e' :
  logs ≠ [] ->
  llm (historian_prompt rt logs) (env w) = (Some s, e') ->
  run_historian_ai rt llm logs w =
    (Ok tt,
     {| db := update_summarized (log_id <$> logs) (summary_written rt logs s (db w));
        env := e';
        trace := trace w ++ [EvLLM (historian_prompt rt logs) (Some s)]
                   ++ summary_events rt logs s
                   ++ [EvMarkSummarized (log_id <$> logs)] |}).
Proof.
  intros Hne Hllm. destruct logs as [|l logs]; [done|].
  unfold run_historian_ai, bind, call_llm, summary_written, summary_events.
  rewrite Hllm. destruct (contains NO_EVENT s); simpl;
    unfold save_summary, bind, emit, write_db, ret; simpl; by rewrite <-?app_assoc.
Qed.

Lemma try_summarize_below user w :
  (length (select_unsummarized user (db w)) < SUMMARIZE_THRESHOLD + 2)%nat ->
  try_summarize rt llm user w = (Ok tt, with_trace w (trigger_events user)).
Proof.
  intros Hlt. unfold SUMMARIZE_THRESHOLD in Hlt. unfold try_summarize, bind, get_unsummarized_logs, bind, emit, read_db.
  simpl. rewrite bool_decide_eq_false_2 by lia.
  unfold ret, with_trace; simpl. by rewrite <-app_assoc.
Qed.

Lemma try_summarize_fires user w :
  let logs := select_unsummarized user (db w) in
  (SUMMARIZE_THRESHOLD + 2 <= length logs)%nat ->
  try_summarize rt llm user w =
    run_historian_ai rt llm (batch_of logs)
      (with_trace w (trigger_events user
                      ++ [EvPrint (historian_banner (length (batch_of logs)))])).
Proof.
  intros logs Hge. unfold SUMMARIZE_THRESHOLD in Hge. unfold try_summarize, bind, get_unsummarized_logs, bind, emit, read_db.
  simpl. fold logs. rewrite bool_decide_eq_true_2 by lia.
  unfold print, emit, with_trace, batch_of, historian_banner; simpl.
  by rewrite <-!app_assoc.
Qed.
End HistorianFacts.

(** ** The tables: keys, turns and the uncompacted turns of a user *)

Lemma select_unsummarized_Permutation user d :
  select_unsummarized user d ≡ₚ uncompacted user d.
Proof. apply order_by_Permutation. Qed.

Lemma fmap_inj_on {A B} (f : A -> B) (l : list A) x y :
  NoDup (f <$> l) -> x ∈ l -> y ∈ l -> f x = f y -> x = y.
Proof.
  induction l as [|a l IH]; simpl; intros Hnd Hx Hy Hf.
  - by apply elem_of_nil in Hx.
  - apply NoDup_cons in Hnd as [Hna Hnd].
    apply elem_of_cons in Hx as [->|Hx]; apply elem_of_cons in Hy as [->|Hy].
    + done.
    + exfalso. apply Hna. rewrite Hf. by apply list_elem_of_fmap_2.
    + exfalso. apply Hna. rewrite <-Hf. by apply list_elem_of_fmap_2.
    + by apply IH.
Qed.

Lemma filter_keep_all {A} (P : A -> Prop) `{!forall x, Decision (P x)} (l : list A) :
  Forall P l -> filter P l = l.
Proof.
  induction 1 as [|x l Hx _ IH]; [done|].
  by rewrite filter_cons, decide_True, IH.
Qed.

Lemma filter_keep_none {A} (P : A -> Prop) `{!forall x, Decision (P x)} (l : list A) :
  Forall (fun x => ~ P x) l -> filter P l = [].
Proof.
  induction 1 as [|x l Hx _ IH]; [done|].
  by rewrite filter_cons, decide_False, IH.
Qed.

Lemma uncompacted_keys user d :
  NoDup (log_id <$> chat_logs d) -> NoDup (log_id <$> select_unsummarized user d).
Proof.
  intros Hnd. rewrite select_unsummarized_Permutation.
  eapply sublist_NoDup; [exact Hnd|].
  apply fmap_sublist, sublist_filter.
Qed.

Lemma mark_log_id ids r : log_id (mark ids r) = log_id r.
Proof. unfold mark. by case_bool_decide. Qed.

Lemma mark_user_id ids r : user_id (mark ids r) = user_id r.
Proof. unfold mark. by case_bool_decide. Qed.

Lemma update_summarized_ids ids d :
  log_id <$> chat_logs (update_summarized ids d) = log_id <$> chat_logs d.
Proof.
  simpl. rewrite <-list_fmap_compose. apply list_fmap_ext.
  intros _ r _. apply mark_log_id.
Qed.

Lemma update_summarized_keys ids d : keys_ok d -> keys_ok (update_summarized ids d).
Proof.
  intros [Hnd Hle]. split.
  - by rewrite update_summarized_ids.
  - simpl. apply Forall_fmap. eapply Forall_impl; [exact Hle|].
    intros r Hr. simpl. by rewrite mark_log_id.
Qed.

Lemma update_summarized_turns ids user d :
  length (turns_of user (update_summarized ids d)) = length (turns_of user d).
Proof.
  unfold turns_of. simpl. induction (chat_logs d) as [|r l IH]; [done|].
  rewrite fmap_cons, !filter_cons, mark_user_id.
  destruct (decide (user_id r = user)); simpl; by rewrite IH.
Qed.

(** After the update, the uncompacted turns are the former ones whose key
    was not listed. *)
Lemma update_summarized_uncompacted ids user d :
  uncompacted user (update_summarized ids d)
  = filter (fun r => log_id r ∉ ids) (uncompacted user d).
Proof.
  unfold uncompacted. simpl. induction (chat_logs d) as [|r l IH]; [done|].
  rewrite fmap_cons, !filter_cons, IH. unfold mark, set_summarized.
  case_bool_decide as Hin; simpl.
  - destruct (decide (user_id r = user /\ summarized r = 0)) as [Hp|Hp].
    + rewrite decide_False by (intros [_ ?]; done).
      rewrite filter_cons, decide_False; [done|]. by intros ?.
    + by rewrite decide_False by (intros [_ ?]; done).
  - destruct (decide (user_id r = user /\ summarized r = 0)) as [Hp|Hp]; [|done].
    by rewrite filter_cons, decide_True.
Qed.

(** Marking a prefix of a duplicate-free list leaves exactly the suffix. *)
Lemma filter_not_in_take n (logs : list ChatLog) :
  NoDup (log_id <$> logs) ->
  filter (fun r => log_id r ∉ log_id <$> take n logs) logs = drop n logs.
Proof.
  intros Hnd. set (ids := log_id <$> take n logs).
  rewrite <-(take_drop n logs), fmap_app in Hnd.
  apply NoDup_app in Hnd as (_ & Hdisj & _).
  rewrite <-(take_drop n logs) at 1. rewrite filter_app.
  rewrite (filter_keep_none _ (take n logs)), (filter_keep_all _ (drop n logs)); [done| |].
  - apply Forall_forall. intros r Hr Hin. eapply Hdisj; [exact Hin|].
    by apply list_elem_of_fmap_2.
  - apply Forall_forall. intros r Hr Hnot. apply Hnot.
    by apply list_elem_of_fmap_2.
Qed.

Lemma compact_uncompacted user d :
  NoDup (log_id <$> chat_logs d) ->
  let logs := select_unsummarized user d in
  uncompacted user (update_summarized (log_id <$> batch_of logs) d)
  ≡ₚ drop (length logs - 2) logs.
Proof.
  intros Hnd logs. rewrite update_summarized_uncompacted.
  rewrite <-(select_unsummarized_Permutation user d). fold logs.
  unfold batch_of. rewrite filter_not_in_take; [done|].
  by apply uncompacted_keys.
Qed.

Lemma compact_other_user user other d :
  NoDup (log_id <$> chat_logs d) -> other ≠ user ->
  let logs := select_unsummarized user d in
  uncompacted other (update_summarized (log_id <$> batch_of logs) d)
  = uncompacted other d.
Proof.
  intros Hnd Hne logs. rewrite update_summarized_uncompacted.
  apply filter_keep_all, Forall_forall.
  intros r Hr Hin.
  apply list_elem_of_fmap in Hin as (b & Hid & Hb).
  assert (b ∈ uncompacted user d) as Hb'.
  { rewrite <-select_unsummarized_Permutation. eapply subseteq_take, Hb. }
  apply list_elem_of_filter in Hb' as [[Hu _] Hbl].
  apply list_elem_of_filter in Hr as [[Ho _] Hrl].
  assert (r = b) by (eapply fmap_inj_on; eauto). congruence.
Qed.

Lemma empty_db_inv : db_inv empty_db.
Proof.
  split; [split; simpl; constructor|].
  intros user. unfold turns_of, uncompacted. simpl. lia.
Qed.

Lemma insert_chat_inv user r c ts d : db_inv d -> db_inv (insert_chat user r c ts d).
Proof.
  intros [[Hnd Hle] Hfloor]. split; [split|]; simpl.
  - rewrite fmap_app. apply NoDup_app. split_and!; [done| |apply NoDup_singleton].
    intros x Hx Hin. simpl in Hin. apply list_elem_of_singleton in Hin. subst x.
    apply list_elem_of_fmap in Hx as (row & Hid & Hrow).
    rewrite Forall_forall in Hle. specialize (Hle _ Hrow). simpl in Hle. lia.
  - apply Forall_app. split.
    + eapply Forall_impl; [exact Hle|]. simpl. intros; lia.
    + repeat constructor. simpl. lia.
  - intros other. specialize (Hfloor other). unfold turns_of, uncompacted in *. simpl.
    rewrite !filter_app, !length_app, !filter_cons, !filter_nil. simpl.
    destruct (decide (user = other)) as [->|Hne].
    + rewrite decide_True by done. simpl. lia.
    + rewrite decide_False by (by intros [? _]). simpl. lia.
Qed.

Lemma replace_summary_inv date c d : db_inv d -> db_inv (replace_summary date c d).
Proof. intros [[Hnd Hle] Hfloor]. by split; [split|]. Qed.

Lemma compact_inv user d :
  (SUMMARIZE_THRESHOLD + 2 <= length (select_unsummarized user d))%nat ->
  db_inv d ->
  db_inv (update_summarized (log_id <$> batch_of (select_unsummarized user d)) d).
Proof.
  intros Hlen [Hkeys Hfloor]. split; [by apply update_summarized_keys|].
  destruct Hkeys as [Hnd _]. intros other.
  rewrite update_summarized_turns.
  destruct (decide (other = user)) as [->|Hne].
  - rewrite (compact_uncompacted user d Hnd), length_drop.
    unfold SUMMARIZE_THRESHOLD in Hlen. lia.
  - rewrite (compact_other_user user other d Hnd Hne). apply Hfloor.
Qed.

Lemma db_step_inv d d' : db_step d d' -> db_inv d -> db_inv d'.
Proof.
  destruct 1; auto using insert_chat_inv, replace_summary_inv, compact_inv.
Qed.

Lemma db_steps_inv d d' : rtc db_step d d' -> db_inv d -> db_inv d'.
Proof. induction 1; eauto using db_step_inv. Qed.

Global Instance appended_preorder : PreOrder appended.
Proof.
  split.
  - intros d. exists []. by rewrite app_nil_r.
  - intros d1 d2 d3 (n1 & H1 & F1) (n2 & H2 & F2). exists (n1 ++ n2).
    rewrite H2, H1, app_assoc. split; [done|]. by apply Forall_app.
Qed.

Lemma appended_insert user r c ts d : appended d (insert_chat user r c ts d).
Proof. eexists. split; [done|]. by repeat constructor. Qed.

(** ** Calls move the world along a relation

    Whatever preorder [R] on worlds contains a move of the outside, an
    event that is not the historian's and the recording of a turn contains
    the effect of a conversation turn and of a recall, however they end. *)

Section Evolves.
Context {E : Type}.
Variable rt : Runtime.
Variable llm : str -> E -> option str * E.
Variable time_time : E -> Z * E.

Variable R : relation (World E).
Context `{!PreOrder R}.
Hypothesis R_env : forall w e,
  R w {| db := db w; env := e; trace := trace w |}.
Hypothesis R_emit : forall w ev,
  is_historian_event ev = false -> R w (with_trace w [ev]).
Hypothesis R_insert : forall w user r c ts,
  R w {| db := insert_chat user r c ts (db w); env := env w; trace := trace w |}.

Lemma evolves_ret {A} (a : A) : evolves R (ret a).
Proof. intros w. simpl. done. Qed.

Lemma evolves_raise {A} e : evolves R (raise (A := A) e).
Proof. intros w. simpl. done. Qed.

Lemma evolves_bind {A B} (m : M E A) (k : A -> M E B) :
  evolves R m -> (forall a, evolves R (k a)) -> evolves R (bind m k).
Proof.
  intros Hm Hk w. unfold bind. specialize (Hm w).
  destruct (m w) as [[a|e] w']; simpl in *; [|done].
  etrans; [exact Hm|]. apply Hk.
Qed.

Lemma evolves_emit ev : is_historian_event ev = false -> evolves R (emit ev).
Proof. intros Hev w. by apply R_emit. Qed.

Lemma evolves_read_db {A} (q : DB -> A) : evolves R (read_db q).
Proof. intros w. simpl. done. Qed.

Lemma evolves_clock : evolves R (clock time_time).
Proof. intros w. unfold clock. destruct (time_time _). simpl. apply R_env. Qed.

Lemma evolves_call_llm prompt : evolves R (call_llm llm prompt).
Proof.
  intros w. unfold call_llm.
  assert (forall r e', R w {| db := db w; env := e'; trace := trace w ++ [EvLLM prompt r] |}) as HR.
  { intros r e'. etrans; [apply (R_env w e')|].
    by apply (R_emit {| db := db w; env := e'; trace := trace w |} (EvLLM prompt r)). }
  destruct (llm _ _) as [[s|] e']; simpl; apply HR.
Qed.

Lemma evolves_insert user r c ts : evolves R (write_db (insert_chat user r c ts)).
Proof. intros w. apply R_insert. Qed.

Create HintDb evolves.
Hint Resolve evolves_ret evolves_raise evolves_read_db evolves_clock
  evolves_call_llm evolves_insert : evolves.

Ltac evolve :=
  repeat first
    [ solve [eauto with evolves]
    | by apply evolves_emit
    | apply evolves_bind; [|intros ?] ].

Lemma evolves_add_chat user r c : evolves R (add_chat time_time user r c).
Proof. unfold add_chat. evolve. Qed.
Hint Resolve evolves_add_chat : evolves.

Lemma evolves_get_logs_by_date date : evolves R (get_logs_by_date rt date).
Proof.
  unfold get_logs_by_date. destruct (strptime rt date) as [[[y m] d]|]; evolve.
Qed.
Hint Resolve evolves_get_logs_by_date : evolves.

Lemma evolves_internal_memory_recall date query :
  evolves R (internal_memory_recall rt llm date query).
Proof.
  unfold internal_memory_recall. evolve. destruct a0; evolve.
Qed.
Hint Resolve evolves_internal_memory_recall : evolves.

Lemma evolves_get_formatted_history user limit :
  evolves R (get_formatted_history rt time_time user limit).
Proof. unfold get_formatted_history, get_recent_history. evolve. Qed.
Hint Resolve evolves_get_formatted_history : evolves.

Lemma evolves_think_and_reply input user :
  evolves R (think_and_reply rt llm time_time input user).
Proof.
  unfold think_and_reply, print. evolve.
  destruct (re_search rt a1) as [[date query]|]; evolve.
Qed.
End Evolves.

Global Instance steps_preorder {E} : PreOrder (@steps E).
Proof.
  split; [intros w; apply rtc_refl|].
  intros w1 w2 w3. unfold steps. intros. by etrans.
Qed.

Global Instance turn_only_preorder {E} : PreOrder (@turn_only E).
Proof.
  split.
  - intros w. split; [done|split; [done|]]. exists []. by rewrite app_nil_r.
  - intros w1 w2 w3 (A1 & S1 & evs1 & T1 & F1) (A2 & S2 & evs2 & T2 & F2).
    split; [by etrans|split; [congruence|]].
    exists (evs1 ++ evs2). rewrite T2, T1, app_assoc. split; [done|by apply Forall_app].
Qed.

Global Instance same_db_preorder {E} : PreOrder (@same_db E).
Proof. split; [done|]. intros w1 w2 w3. unfold same_db. congruence. Qed.

Section Reachable.
Context {E : Type}.
Variable rt : Runtime.
Variable llm : str -> E -> option str * E.
Variable time_time : E -> Z * E.

Lemma steps_think_and_reply input user :
  evolves steps (think_and_reply rt llm time_time input user).
Proof.
  apply evolves_think_and_reply; [apply _| | |].
  - intros w e. apply rtc_refl.
  - intros w ev _. apply rtc_refl.
  - intros w user' r c ts. apply rtc_once. constructor.
Qed.

Lemma steps_internal_memory_recall date query :
  evolves steps (internal_memory_recall rt llm date query).
Proof.
  apply evolves_internal_memory_recall; [apply _| |].
  - intros w e. apply rtc_refl.
  - intros w ev _. apply rtc_refl.
Qed.

Lemma turn_only_think_and_reply input user :
  evolves turn_only (think_and_reply rt llm time_time input user).
Proof.
  apply evolves_think_and_reply; [apply _| | |].
  - intros w e. split; [done|split; [done|]]. exists []. by rewrite app_nil_r.
  - intros w ev Hev. split; [done|split; [done|]]. exists [ev]. split; [done|by constructor].
  - intros w user' r c ts. split; [apply appended_insert|split; [done|]].
    exists []. by rewrite app_nil_r.
Qed.

Lemma same_db_internal_memory_recall date query :
  evolves same_db (internal_memory_recall rt llm date query).
Proof. apply evolves_internal_memory_recall; [apply _|done|done]. Qed.

Lemma steps_try_summarize user : evolves steps (try_summarize rt llm user).
Proof.
  intros w.
  destruct (decide (SUMMARIZE_THRESHOLD + 2 <= length (select_unsummarized user (db w)))%nat)
    as [Hge|Hlt].
  - unfold steps. rewrite try_summarize_fires by done.
    set (logs := select_unsummarized user (db w)) in *.
    set (w0 := with_trace w _).
    assert (batch_of logs ≠ []) as Hne.
    { unfold batch_of, SUMMARIZE_THRESHOLD in *. intros Hnil.
      apply (f_equal length) in Hnil. rewrite length_take in Hnil. simpl in Hnil. lia. }
    destruct (llm (historian_prompt rt (batch_of logs)) (env w0)) as [[s|] e'] eqn:Hllm.
    + rewrite (run_historian_ai_ok rt llm _ w0 s e' Hne Hllm). simpl.
      unfold summary_written. destruct (contains NO_EVENT s).
      * apply rtc_once. by apply step_compact.
      * eapply rtc_l; [apply (step_summary (historian_date rt (batch_of logs)) s)|].
        apply rtc_once. by apply (step_compact user (replace_summary _ _ (db w))).
    + rewrite (run_historian_ai_fail rt llm _ w0 e' Hne Hllm). simpl. done.
  - unfold steps. rewrite try_summarize_below by lia. simpl. done.
Qed.

Lemma steps_main_turn msg : evolves steps (main_turn rt llm time_time msg).
Proof.
  unfold main_turn, print.
  apply evolves_bind; [apply _|apply steps_think_and_reply|intros response].
  apply evolves_bind; [apply _|intros w; apply rtc_refl|intros _].
  apply steps_try_summarize.
Qed.

Lemma reachable_inv w : reachable rt llm time_time w -> db_inv (db w).
Proof.
  induction 1 as [e|w input user _ IH|w user _ IH|w date query _ IH|w msg _ IH].
  - apply empty_db_inv.
  - eapply db_steps_inv; [apply (steps_think_and_reply input user w)|done].
  - eapply db_steps_inv; [apply (steps_try_summarize user w)|done].
  - eapply db_steps_inv; [apply (steps_internal_memory_recall date query w)|done].
  - eapply db_steps_inv; [apply (steps_main_turn msg w)|done].
Qed.
End Reachable.

Lemma mark_nil r : mark [] r = r.
Proof. unfold mark. rewrite bool_decide_eq_false_2; [done|]. apply not_elem_of_nil. Qed.

Lemma update_summarized_nil d : chat_logs (update_summarized [] d) = chat_logs d.
Proof.
  simpl. rewrite <-(list_fmap_id (chat_logs d)) at 2.
  apply list_fmap_ext. intros _ r _. apply mark_nil.
Qed.

Lemma batch_of_length logs :
  (2 <= length logs)%nat -> length (batch_of logs) = (length logs - 2)%nat.
Proof. intros. unfold batch_of. rewrite length_take. lia. Qed.

Lemma batch_of_nonempty logs :
  (SUMMARIZE_THRESHOLD + 2 <= length logs)%nat -> batch_of logs ≠ [].
Proof.
  unfold SUMMARIZE_THRESHOLD. intros Hlen Hnil.
  apply (f_equal length) in Hnil. rewrite batch_of_length in Hnil by lia.
  simpl in Hnil. lia.
Qed.




Section Historian.
Context {E : Type}.
Variable rt : Runtime.
Variable llm : str -> E -> option str * E.
Variable time_time : E -> Z * E.


(** C7: when the reasoning step fails, the compaction attempt raises
    before anything is written: the tables are as they were, no summary
    was stored, no turn was marked, and the next attempt selects the same
    batch. *)
Theorem historian_failure_aborts user w e' :
  let logs := select_unsummarized user (db w) in
  (SUMMARIZE_THRESHOLD + 2 <= length logs)%nat ->
  llm (historian_prompt rt (batch_of logs)) (env w) = (None, e') ->
  exists w',
    try_summarize rt llm user w = (Raise ReasoningUnavailable, w')
    /\ run_historian_ai rt llm (batch_of logs) w
       = (Raise ReasoningUnavailable,
          {| db := db w; env := e';
             trace := trace w ++ [EvLLM (historian_prompt rt (batch_of logs)) None] |})
    /\ db w' = db w
    /\ Forall (fun ev => is_write ev = false) (drop (length (trace w)) (trace w'))
    /\ batch_of (select_unsummarized user (db w')) = batch_of logs.
Proof.
  intros logs Hlen Hllm.
  pose proof (batch_of_nonempty logs Hlen) as Hne.
  eexists. split; [|split; [by apply run_historian_ai_fail|]].
  - rewrite try_summarize_fires by done. fold logs.
    by apply run_historian_ai_fail.
  - simpl. split; [done|]. split; [|done].
    rewrite <-app_assoc, drop_app_length. by repeat constructor.
Qed.


(** C3: in every reachable world a user with at least two recorded turns
    has at least two uncompacted turns; the trigger marks nothing or
    exactly the uncompacted turns but the last two; a conversation turn
    only appends uncompacted turns; a recall leaves the tables alone. *)
Theorem soft_landing_floor w user :
  reachable rt llm time_time w ->
  ((2 <= length (turns_of user (db w)))%nat ->
     (2 <= length (uncompacted user (db w)))%nat)
  /\ (exists ids,
        (ids = [] \/ ids = log_id <$> batch_of (select_unsummarized user (db w)))
        /\ chat_logs (db (try_summarize rt llm user w).2)
           = mark ids <$> chat_logs (db w))
  /\ (forall input,
        appended (db w) (db (think_and_reply rt llm time_time input user w).2))
  /\ (forall date query,
        db (internal_memory_recall rt llm date query w).2 = db w).
Proof.
  intros Hreach. split; [|split; [|split]].
  - intros Hturns. apply reachable_inv in Hreach as [_ Hfloor].
    specialize (Hfloor user). lia.
  - destruct (decide (SUMMARIZE_THRESHOLD + 2
                      <= length (select_unsummarized user (db w)))%nat) as [Hge|Hlt].
    + rewrite try_summarize_fires by done.
      set (logs := select_unsummarized user (db w)) in *.
      set (w0 := with_trace w _).
      pose proof (batch_of_nonempty logs Hge) as Hne.
      destruct (llm (historian_prompt rt (batch_of logs)) (env w0)) as [[s|] e'] eqn:Hllm.
      * rewrite (run_historian_ai_ok rt llm _ w0 s e' Hne Hllm). simpl.
        exists (log_id <$> batch_of logs). split; [by right|].
        unfold summary_written. by destruct (contains _ _).
      * rewrite (run_historian_ai_fail rt llm _ w0 e' Hne Hllm). simpl.
        exists []. split; [by left|]. symmetry. apply (update_summarized_nil (db w)).
    + rewrite try_summarize_below by lia. simpl.
      exists []. split; [by left|]. symmetry. apply (update_summarized_nil (db w)).
  - intros input. apply (turn_only_think_and_reply rt llm time_time input user w).
  - intros date query. apply (same_db_internal_memory_recall rt llm date query w).
Qed.
End Historian.



(** ** The phases of [think_and_reply] *)

Section PhaseFacts.
Context {E : Type}.
Variable rt : Runtime.
Variable llm : str -> E -> option str * E.
Variable time_time : E -> Z * E.

Local Open Scope engine_scope.

Lemma think_and_reply_phases user_input user w :
  think_and_reply rt llm time_time user_input user w
  = (messages <- build_context rt time_time user_input user ;;
     reply <- call_llm llm (render messages) ;;
     conclude rt llm time_time user messages reply) w.
Proof.
  unfold think_and_reply, build_context, conclude, second_reason, bind, ret.
  destruct (add_chat _ _ _ _ w) as [[[]|e] w1]; [|done].
  destruct (get_formatted_history _ _ _ _ w1) as [[history|e] w2]; [|done].
  done.
Qed.

Lemma add_chat_run user r c w :
  add_chat time_time user r c w
  = (Ok tt, {| db := insert_chat user r c (time_time (env w)).1 (db w);
               env := (time_time (env w)).2;
               trace := trace w ++ [EvAddChat user r c (time_time (env w)).1] |}).
Proof.
  unfold add_chat, bind, clock, emit, write_db.
  by destruct (time_time (env w)) as [t e1].
Qed.

Lemma build_context_run user_input user w :
  build_context rt time_time user_input user w
  = (Ok (history_at rt time_time user_input user w ++ [user_msg user_input]),
     at_first_reason time_time user_input user w).
Proof.
  unfold build_context, bind. rewrite add_chat_run.
  unfold get_formatted_history, get_recent_history, bind, emit, read_db, clock, ret.
  simpl. destruct (time_time (time_time (env w)).2) as [t2 e2] eqn:Ht2.
  unfold history_at, at_first_reason, recorded. rewrite Ht2. simpl.
  by rewrite <-app_assoc.
Qed.

(** *** The investigator *)

Lemma internal_memory_recall_invalid date query w :
  strptime rt date = None ->
  internal_memory_recall rt llm date query w
  = (Raise ValueError, with_trace w [EvRecall date query]).
Proof.
  intros Hd. unfold internal_memory_recall, get_logs_by_date, bind, emit, raise.
  by rewrite Hd.
Qed.






End PhaseFacts.

(** ** Recognising the directive *)

Lemma strip_prefix_app p s : strip_prefix p (p ++ s) = Some s.
Proof.
  induction p as [|c p IH]; simpl; [by destruct s|]. by rewrite N.eqb_refl.
Qed.

Section DirectiveFacts.
Variable rt : Runtime.

Lemma date_shape_app date tail :
  date_shape rt date = Some (date, []) ->
  date_shape rt (date ++ tail) = Some (date, tail).
Proof.
  unfold date_shape. intros H.
  do 10 (destruct date as [|? date]; [done|]).
  destruct date; [|by destruct (_ && _)].
  simpl in *. by destruct (_ && _).
Qed.

Lemma lazy_query_app query post :
  93%N ∉ query -> nl ∉ query ->
  lazy_query (query ++ 93%N :: post) = Some query.
Proof.
  induction query as [|c query IH]; simpl; intros Hb Hn; [done|].
  apply not_elem_of_cons in Hb as [Hb1 Hb2].
  apply not_elem_of_cons in Hn as [Hn1 Hn2].
  rewrite (proj2 (N.eqb_neq c 93)), (proj2 (N.eqb_neq c nl)) by done.
  by rewrite IH.
Qed.

Lemma re_search_here s g : match_here rt s = Some g -> re_search rt s = Some g.
Proof. intros H. destruct s; cbn [re_search]; by rewrite H. Qed.

Lemma re_search_directive date query post :
  date_shape rt date = Some (date, []) ->
  93%N ∉ query -> nl ∉ query ->
  re_search rt (directive date query ++ post) = Some (date, query).
Proof.
  intros Hd Hb Hn. apply re_search_here. unfold match_here, directive.
  rewrite <-!app_assoc, strip_prefix_app. cbn [mbind option_bind].
  rewrite (date_shape_app _ _ Hd). cbn [mbind option_bind].
  rewrite (strip_prefix_app (u "|")). cbn [mbind option_bind].
  change (u "]" ++ post) with (93%N :: post).
  by rewrite lazy_query_app.
Qed.
End DirectiveFacts.

Section Turn.
Context {E : Type}.
Variable rt : Runtime.
Variable llm : str -> E -> option str * E.
Variable time_time : E -> Z * E.

Local Open Scope engine_scope.

Lemma call_llm_Ok prompt w s w' :
  call_llm llm prompt w = (Ok s, w') ->
  w' = {| db := db w; env := (llm prompt (env w)).2;
          trace := trace w ++ [EvLLM prompt (Some s)] |}.
Proof.
  unfold call_llm. destruct (llm prompt (env w)) as [[r|] e']; simpl; congruence.
Qed.



(** C1, as the code has it: a conversation turn performs no event of the
    historian, changes no summary and no recorded turn; it is one round of
    [main] that runs the trigger check, for the default user, after the
    reply has been returned and printed. *)
Theorem trigger_check_belongs_to_main input user w :
  turn_only w (think_and_reply rt llm time_time input user w).2
  /\ (forall response w1,
        think_and_reply rt llm time_time input DEFAULT_USER w = (Ok response, w1) ->
        main_turn rt llm time_time input w
        = try_summarize rt llm DEFAULT_USER
            (with_trace w1 [EvPrint (u "AI: " ++ response)]))
  /\ (forall e w1,
        think_and_reply rt llm time_time input DEFAULT_USER w = (Raise e, w1) ->
        main_turn rt llm time_time input w = (Raise e, w1)).
Proof.
  split; [apply turn_only_think_and_reply|split].
  - intros response w1 Hrun. unfold main_turn, bind. by rewrite Hrun.
  - intros e w1 Hrun. unfold main_turn, bind. by rewrite Hrun.
Qed.

(** A reply in which the pattern is not found is ordinary text: no recall,
    the reply is stored as the assistant turn and returned. *)
Lemma plain_reply_is_stored input user w reply1 w2 :
  let messages := history_at rt time_time input user w ++ [user_msg input] in
  call_llm llm (render messages) (at_first_reason time_time input user w)
    = (Ok reply1, w2) ->
  re_search rt reply1 = None ->
  think_and_reply rt llm time_time input user w
  = (Ok reply1,
     {| db := insert_chat user (u "assistant") reply1 (time_time (env w2)).1 (db w2);
        env := (time_time (env w2)).2;
        trace := trace w2
                   ++ [EvAddChat user (u "assistant") reply1 (time_time (env w2)).1] |}).
Proof.
  intros messages H1 Hnone.
  rewrite think_and_reply_phases. unfold bind at 1.
  rewrite build_context_run. fold messages. unfold bind at 1. rewrite H1.
  unfold conclude, bind, ret. rewrite Hnone. by rewrite add_chat_run.
Qed.

(** A reply in which the pattern is found with a date that is no calendar
    date: the recall raises [ValueError], the turn ends there, and the
    tables hold the user turn only. *)
Lemma invalid_date_raises input user w reply1 w2 date query :
  let messages := history_at rt time_time input user w ++ [user_msg input] in
  call_llm llm (render messages) (at_first_reason time_time input user w)
    = (Ok reply1, w2) ->
  re_search rt reply1 = Some (date, query) ->
  strptime rt date = None ->
  think_and_reply rt llm time_time input user w
  = (Raise ValueError,
     with_trace w2 [EvPrint (recall_banner date query); EvRecall date query])
  /\ db w2 = recorded time_time input user w.
Proof.
  intros messages H1 Hdir Hdate. split.
  - rewrite think_and_reply_phases. unfold bind at 1.
    rewrite build_context_run. fold messages. unfold bind at 1. rewrite H1.
    unfold conclude, second_reason, bind, print, emit. rewrite Hdir. simpl.
    rewrite internal_memory_recall_invalid by done.
    unfold with_trace. simpl. by rewrite <-app_assoc.
  - apply call_llm_Ok in H1. by subst w2.
Qed.
End Turn.

(** ** Concrete runs *)


Example rounds_compact :
  length (turns_of DEFAULT_USER (db (rounds 16 (start empty_db quiet)))) = 32%nat
  /\ length (uncompacted DEFAULT_USER (db (rounds 16 (start empty_db quiet)))) = 2%nat.
Proof. vm_compute. split; reflexivity. Qed.

Lemma reachable_rounds n w :
  reachable utc fake_llm_step script_time w ->
  reachable utc fake_llm_step script_time (rounds n w).
Proof.
  revert w. induction n as [|n IH]; intros w Hw; [done|].
  simpl. apply IH. by constructor.
Qed.

Lemma busy_keys : NoDup (log_id <$> chat_logs (db busy)).
Proof. apply (bool_decide_unpack _). vm_compute. exact I. Qed.



(** C3 after 16 rounds of [main]: 32 turns recorded, compaction has run,
    2 uncompacted turns remain. *)
Lemma soft_landing_floor_witness :
  (2 <= length (uncompacted DEFAULT_USER (db (rounds 16 (start empty_db quiet)))))%nat.
Proof.
  destruct (soft_landing_floor utc fake_llm_step script_time
              (rounds 16 (start empty_db quiet)) DEFAULT_USER) as [Hfloor _].
  - apply reachable_rounds. constructor.
  - apply Hfloor. vm_compute. lia.
Defined.

(** C7 at [busy] with a reasoning step that fails. *)
Lemma historian_failure_aborts_witness :
  exists w',
    try_summarize utc script_llm DEFAULT_USER busy = (Raise ReasoningUnavailable, w')
    /\ db w' = db busy.
Proof.
  destruct (historian_failure_aborts utc script_llm DEFAULT_USER busy (env busy))
    as (w' & Hrun & _ & Hdb & _).
  - vm_compute. lia.
  - vm_compute. reflexivity.
  - exists w'. split; [exact Hrun|exact Hdb].
Defined.







(** C1: with 32 uncompacted turns already there, a conversation turn
    returns its reply, leaves 34 uncompacted turns and no summary, and
    shows no event of the historian; the round of [main] does compact. *)
Lemma turn_without_trigger_counterexample :
  let r := think_and_reply utc fake_llm_step script_time (u "hello") DEFAULT_USER busy in
  is_Some (match r.1 with Ok reply => Some reply | Raise _ => None end)
  /\ filter (fun ev => is_historian_event ev = true) (trace r.2) = []
  /\ length (select_unsummarized DEFAULT_USER (db r.2)) = 34%nat
  /\ summaries (db r.2) = ∅
  /\ length (select_unsummarized DEFAULT_USER
               (db (main_turn utc fake_llm_step script_time (u "hello") busy).2)) = 2%nat.
Proof.
  vm_compute. split; [by eexists|]. repeat split; reflexivity.
Qed.

Lemma trigger_check_belongs_to_main_witness :
  main_turn utc fake_llm_step script_time (u "hello") busy
  = try_summarize utc fake_llm_step DEFAULT_USER
      (with_trace (think_and_reply utc fake_llm_step script_time (u "hello") DEFAULT_USER busy).2
         [EvPrint (u "AI: " ++ fake_llm (u "hello"))]).
Proof.
  destruct (trigger_check_belongs_to_main utc fake_llm_step script_time (u "hello")
              DEFAULT_USER busy) as (_ & Hmain & _).
  apply Hmain. vm_compute. reflexivity.
Defined.

(** The malformed directive of the specification, with the date written day
    first, is stored verbatim and nothing is recalled. *)
Example day_first_is_plain_text :
  let r := think_and_reply utc script_llm script_time (u "hi") DEFAULT_USER day_first in
  r.1 = Ok (u "[RECALL|26-02-2026|cats]")
  /\ content <$> chat_logs (db r.2) = [u "hi"; u "[RECALL|26-02-2026|cats]"]
  /\ recalls (trace r.2) = [].
Proof. vm_compute. repeat split; reflexivity. Qed.

(** C6, where the code departs from it: the reply [[RECALL|2026-13-45|cats]]
    has the bracketed shape but no calendar date; the pattern accepts it,
    the investigator is called, [strptime] raises, and the turn ends in
    [ValueError] with the user turn recorded and no assistant turn. *)
Theorem malformed_date_directive_raises :
  let r := think_and_reply utc script_llm script_time (u "hi") DEFAULT_USER
             thirteenth_month in
  re_search utc (u "[RECALL|2026-13-45|cats]") = Some (u "2026-13-45", u "cats")
  /\ strptime utc (u "2026-13-45") = None
  /\ r.1 = Raise ValueError
  /\ recalls (trace r.2) = [(u "2026-13-45", u "cats")]
  /\ role <$> chat_logs (db r.2) = [u "user"].
Proof. vm_compute. repeat split; reflexivity. Qed.

(** * More of the module *)

(** ** The statements of [AsyncDB], one by one *)

Lemma set_summarized_idem r : set_summarized (set_summarized r) = set_summarized r.
Proof. done. Qed.



Lemma mark_unlisted ids r : log_id r ∉ ids -> mark ids r = r.
Proof. intros H. unfold mark. by rewrite bool_decide_eq_false_2. Qed.

Lemma insert_by_desc_sorted x l :
  StronglySorted ts_ge l -> StronglySorted ts_ge (insert_by Z.geb x l).
Proof.
  induction 1 as [|y l Hs IH Hall]; simpl.
  - repeat constructor.
  - destruct (Z.geb_spec (timestamp x) (timestamp y)) as [Hge|Hlt].
    + constructor; [by constructor|].
      constructor; [unfold ts_ge; lia|].
      eapply Forall_impl; [exact Hall|]. unfold ts_ge. intros; lia.
    + constructor; [done|].
      rewrite insert_by_Permutation. constructor; [|done].
      unfold ts_ge. lia.
Qed.

Lemma order_by_desc_sorted l : StronglySorted ts_ge (order_by_timestamp_desc l).
Proof.
  induction l as [|x l IH]; simpl; [constructor|].
  by apply insert_by_desc_sorted.
Qed.

Section Store.
Context {E : Type}.
Variable rt : Runtime.
Variable llm : str -> E -> option str * E.
Variable time_time : E -> Z * E.

Local Open Scope engine_scope.


(** X2: [save_summary] is [INSERT OR REPLACE]: the date just stored reads
    back the content stored; every other date keeps its summary; storing
    twice under one date leaves the tables as storing the second content
    alone; no turn changes. *)
Theorem save_summary_last_write_wins date date' c1 c2 (w : World E) :
  summaries (db (save_summary date c1 w).2) !! date = Some c1
  /\ (date' <> date ->
        summaries (db (save_summary date c1 w).2) !! date' = summaries (db w) !! date')
  /\ db ((save_summary date c1 ;; save_summary date c2) w).2
     = db (save_summary date c2 w).2
  /\ chat_logs (db (save_summary date c1 w).2) = chat_logs (db w).
Proof.
  unfold save_summary, bind, emit, write_db, replace_summary. simpl.
  split; [apply lookup_insert_eq|]. split; [|split; [|done]].
  - intros Hne. by apply lookup_insert_ne.
  - f_equal. apply insert_insert_eq.
Qed.

(** X3: [get_unsummarized_logs] always returns and changes nothing but the
    trace; its result holds the rows of the user whose flag is 0, each as
    often as the table has it and no other row, by ascending timestamp. *)
Theorem get_unsummarized_logs_sound user (w : World E) :
  exists logs,
    get_unsummarized_logs user w = (Ok logs, with_trace w [EvGetUnsummarized user])
    /\ logs ≡ₚ uncompacted user (db w)
    /\ StronglySorted ts_le logs
    /\ (forall r, r ∈ logs <->
                  r ∈ chat_logs (db w) /\ user_id r = user /\ summarized r = 0).
Proof.
  clear rt llm time_time.
  exists (select_unsummarized user (db w)). split; [done|].
  split; [apply select_unsummarized_Permutation|].
  split; [apply order_by_asc_sorted|].
  intros r. rewrite select_unsummarized_Permutation. unfold uncompacted.
  rewrite list_elem_of_filter. tauto.
Qed.

(** X4: [get_recent_history] always returns and changes nothing but the
    trace; it returns [limit] rows of the user, or all of them when there are
    fewer, by descending timestamp, and every row of the user it leaves out
    is no newer than any row it returns. *)
Theorem get_recent_history_newest user limit (w : World E) :
  exists rows older,
    get_recent_history user limit w = (Ok rows, with_trace w [EvGetRecent user limit])
    /\ length rows = (limit `min` length (turns_of user (db w)))%nat
    /\ StronglySorted ts_ge rows
    /\ turns_of user (db w) ≡ₚ rows ++ older
    /\ (forall a b, a ∈ rows -> b ∈ older -> timestamp b <= timestamp a).
Proof.
  set (sorted := order_by_timestamp_desc (turns_of user (db w))).
  exists (take limit sorted), (drop limit sorted).
  assert (StronglySorted ts_ge sorted) as Hs by apply order_by_desc_sorted.
  split; [done|]. split; [|split; [|split]].
  - rewrite length_take. unfold sorted, order_by_timestamp_desc.
    by rewrite order_by_length.
  - rewrite <-(take_drop limit sorted) in Hs. by eapply StronglySorted_app_1_l.
  - rewrite take_drop. unfold sorted, order_by_timestamp_desc.
    by rewrite order_by_Permutation.
  - intros a b Ha Hb. rewrite <-(take_drop limit sorted) in Hs.
    by apply (StronglySorted_app_1_elem_of ts_ge _ _ a b) in Hs.
Qed.

End Store.


Section TurnFacts.
Context {E : Type}.
Variable rt : Runtime.
Variable llm : str -> E -> option str * E.
Variable time_time : E -> Z * E.

Local Open Scope engine_scope.

Lemma call_llm_run prompt (w : World E) :
  call_llm llm prompt w
  = (match (llm prompt (env w)).1 with
     | Some s => Ok s
     | None => Raise ReasoningUnavailable
     end,
     {| db := db w; env := (llm prompt (env w)).2;
        trace := trace w ++ [EvLLM prompt (llm prompt (env w)).1] |}).
Proof. unfold call_llm. by destruct (llm prompt (env w)) as [[s|] e']. Qed.

Lemma second_reason_same_db messages reply date query (w : World E) :
  db (second_reason rt llm messages reply date query w).2 = db w.
Proof.
  unfold second_reason, bind, print, emit.
  match goal with |- context [internal_memory_recall _ _ _ _ ?w0] =>
    pose proof (same_db_internal_memory_recall rt llm date query w0) as Hdb;
    destruct (internal_memory_recall rt llm date query w0) as [[evidence|e] w1]
  end; unfold same_db in Hdb; simpl in *; [|done].
  by rewrite call_llm_run.
Qed.

(** The tables after [conclude]: one more turn when it returns, none when
    it raises. *)
Lemma conclude_db user messages reply (w : World E) :
  match (conclude rt llm time_time user messages reply w).1 with
  | Ok reply' =>
      exists ts, db (conclude rt llm time_time user messages reply w).2
                 = insert_chat user (u "assistant") reply' ts (db w)
  | Raise _ => db (conclude rt llm time_time user messages reply w).2 = db w
  end.
Proof.
  unfold conclude, bind.
  destruct (re_search rt reply) as [[date query]|].
  - pose proof (second_reason_same_db messages reply date query w) as Hdb.
    destruct (second_reason _ _ _ _ _ _ w) as [[reply'|e] w1]; simpl in *; [|done].
    rewrite add_chat_run. simpl. rewrite Hdb. by eexists.
  - unfold ret. rewrite add_chat_run. simpl. by eexists.
Qed.

Lemma think_and_reply_run input user (w : World E) :
  think_and_reply rt llm time_time input user w
  = match first_reply rt llm time_time input user w with
    | Some reply1 =>
        conclude rt llm time_time user
          (history_at rt time_time input user w ++ [user_msg input]) reply1
          (after_first_reason rt llm time_time input user w)
    | None => (Raise ReasoningUnavailable, after_first_reason rt llm time_time input user w)
    end.
Proof.
  rewrite think_and_reply_phases. unfold bind at 1. rewrite build_context_run.
  unfold bind at 1. rewrite call_llm_run. unfold first_reply, after_first_reason.
  by destruct (llm _ _).1.
Qed.

Lemma think_and_reply_db input user (w : World E) :
  match (think_and_reply rt llm time_time input user w).1 with
  | Ok reply =>
      exists ts, db (think_and_reply rt llm time_time input user w).2
                 = insert_chat user (u "assistant") reply ts (recorded time_time input user w)
  | Raise _ =>
      db (think_and_reply rt llm time_time input user w).2 = recorded time_time input user w
  end.
Proof.
  rewrite think_and_reply_run.
  destruct (first_reply rt llm time_time input user w) as [reply1|]; [|done].
  apply (conclude_db user _ reply1 (after_first_reason rt llm time_time input user w)).
Qed.


(** *** What a turn does at most *)





End TurnFacts.

Section DirectiveEdges.
Variable rt : Runtime.

Lemma match_here_nil : match_here rt [] = None.
Proof. done. Qed.

Lemma match_here_other c s : c <> 91%N -> match_here rt (c :: s) = None.
Proof.
  intros Hc. unfold match_here.
  change (u "[RECALL|") with (91%N :: u "RECALL|"). cbn [strip_prefix].
  by rewrite (proj2 (N.eqb_neq 91 c)) by done.
Qed.

Lemma re_search_skip pre s : 91%N ∉ pre -> re_search rt (pre ++ s) = re_search rt s.
Proof.
  induction pre as [|c pre IH]; [done|]. intros Hno.
  apply not_elem_of_cons in Hno as [Hc Hpre].
  cbn [app re_search]. rewrite match_here_other by done. by apply IH.
Qed.

Lemma re_search_none s : 91%N ∉ s -> re_search rt s = None.
Proof.
  intros Hno. rewrite <-(app_nil_r s). by rewrite re_search_skip.
Qed.

Lemma lazy_query_newline q1 rest :
  93%N ∉ q1 -> lazy_query (q1 ++ nl :: rest) = None.
Proof.
  induction q1 as [|c q1 IH]; intros Hb; [done|].
  apply not_elem_of_cons in Hb as [Hc Hq].
  cbn [app lazy_query]. rewrite (proj2 (N.eqb_neq c 93)) by done.
  destruct (c =? nl)%N; [done|]. by rewrite IH.
Qed.

Lemma is_digit_not_bracket c : is_digit rt c = true -> c <> 91%N.
Proof. intros Hd ->. vm_compute in Hd. discriminate. Qed.

Lemma date_shape_no_bracket date : date_shape rt date = Some (date, []) -> 91%N ∉ date.
Proof.
  unfold date_shape. intros H.
  do 10 (destruct date as [|? date]; [done|]).
  destruct date; [|by destruct (_ && _)].
  destruct (forallb _ _ && _ && _) eqn:Hshape; [|done]. clear H.
  apply andb_prop in Hshape as [Hshape Hb]. apply andb_prop in Hshape as [Hdig Ha].
  apply N.eqb_eq in Ha, Hb. subst.
  cbn [forallb] in Hdig.
  repeat (apply andb_prop in Hdig as [?%is_digit_not_bracket Hdig]).
  intros Hin. repeat (apply elem_of_cons in Hin as [Hin|Hin]; [done|]).
  by apply elem_of_nil in Hin.
Qed.

(** X13: [re.search] finds the directive wherever it stands in the reply:
    text without ['['] before it and any text after it do not matter. *)
Theorem directive_found_inside_text pre date query post :
  91%N ∉ pre ->
  date_shape rt date = Some (date, []) ->
  93%N ∉ query -> nl ∉ query ->
  re_search rt (pre ++ directive date query ++ post) = Some (date, query).
Proof.
  intros Hpre Hd Hb Hn. rewrite re_search_skip by done.
  by apply re_search_directive.
Qed.

(** X14: the query group is lazy and [.] matches no newline: the query
    ends at the first [']'] after the date, and a newline before that [']']
    makes the text no directive at all (there being no second ['['] to start
    from). *)
Theorem query_ends_at_bracket_or_newline date q1 q2 post :
  date_shape rt date = Some (date, []) ->
  93%N ∉ q1 -> nl ∉ q1 ->
  re_search rt (directive date (q1 ++ 93%N :: q2) ++ post) = Some (date, q1)
  /\ (91%N ∉ q1 -> 91%N ∉ q2 -> 91%N ∉ post ->
      re_search rt (directive date (q1 ++ nl :: q2) ++ post) = None).
Proof.
  intros Hd Hb Hn. split.
  - replace (directive date (q1 ++ 93%N :: q2) ++ post)
      with (directive date q1 ++ (q2 ++ u "]" ++ post)).
    + by apply re_search_directive.
    + unfold directive. rewrite <-!app_assoc. by do 3 f_equal.
  - intros H1 H2 H3.
    set (tail := u "RECALL|" ++ date ++ u "|" ++ q1 ++ nl :: (q2 ++ u "]" ++ post)).
    assert (directive date (q1 ++ nl :: q2) ++ post = 91%N :: tail) as ->.
    { unfold directive, tail. rewrite <-!app_assoc. done. }
    assert (match_here rt (91%N :: tail) = None) as Hhere.
    { unfold match_here, tail.
      change (91%N :: u "RECALL|" ++ ?x) with (u "[RECALL|" ++ x).
      rewrite strip_prefix_app. cbn [mbind option_bind].
      rewrite (date_shape_app _ _ _ Hd). cbn [mbind option_bind].
      rewrite (strip_prefix_app (u "|")). cbn [mbind option_bind].
      by rewrite lazy_query_newline. }
    cbn [re_search]. rewrite Hhere. apply re_search_none.
    pose proof (date_shape_no_bracket date Hd) as Hdate.
    unfold tail. rewrite !not_elem_of_app, not_elem_of_cons, !not_elem_of_app.
    split_and!; try done; apply (bool_decide_unpack _); vm_compute; exact I.
Qed.
End DirectiveEdges.

Lemma strip_prefix_app_l n a b :
  is_Some (strip_prefix n a) -> is_Some (strip_prefix n (a ++ b)).
Proof.
  revert a. induction n as [|c n IH]; intros a Ha; [by destruct a; eexists|].
  destruct a as [|x a]; [by destruct Ha|]. simpl in *.
  destruct (c =? x)%N; [by apply IH|by destruct Ha].
Qed.

Lemma contains_app_l n a b : contains n a = true -> contains n (a ++ b) = true.
Proof.
  induction a as [|x a IH]; simpl.
  - destruct (strip_prefix n []) as [r|] eqn:Hn; [|done]. intros _.
    destruct n; [|done]. by destruct b.
  - destruct (strip_prefix n (x :: a)) as [r|] eqn:Hn.
    + intros _. destruct (strip_prefix_app_l n (x :: a) b) as [r' Hr']; [by eexists|].
      simpl in Hr'. by rewrite Hr'.
    + intros Ha. destruct (strip_prefix n (x :: a ++ b)); [done|]. by apply IH.
Qed.

Lemma contains_app_r n a b : contains n b = true -> contains n (a ++ b) = true.
Proof.
  intros Hb. induction a as [|x a IH]; [done|]. simpl.
  by destruct (strip_prefix n (x :: a ++ b)).
Qed.

Lemma join_cons sep p rest :
  rest <> [] -> join sep (p :: rest) = p ++ sep ++ join sep rest.
Proof. by destruct rest. Qed.

Lemma contains_join n sep parts p :
  p ∈ parts -> contains n p = true -> contains n (join sep parts) = true.
Proof.
  induction parts as [|q parts IH]; intros Hin Hp; [by apply elem_of_nil in Hin|].
  destruct parts as [|q' parts].
  - apply list_elem_of_singleton in Hin. by subst.
  - rewrite join_cons by done.
    apply elem_of_cons in Hin as [->|Hin].
    + by apply contains_app_l.
    + apply contains_app_r, contains_app_r. by apply IH.
Qed.

Lemma fake_llm_cases prompt :
  fake_llm prompt = if contains recall_phrase prompt then demo_directive else demo_reply.
Proof. done. Qed.

Section Demo.
Variable rt : Runtime.
Variable time_time : Script -> Z * Script.

Lemma demo_directive_found :
  re_search rt demo_directive
  = Some (u "2026-02-26", u "昨天下午我们讨论的关于橘猫的话题").
Proof. vm_compute. reflexivity. Qed.


Lemma demo_date_valid : strptime rt (u "2026-02-26") = Some (2026, 2, 26).
Proof. vm_compute. reflexivity. Qed.

Lemma demo_recall_returns date query (w : World Script) y m d :
  strptime rt date = Some (y, m, d) ->
  exists evidence w',
    internal_memory_recall rt fake_llm_step date query w = (Ok evidence, w').
Proof.
  intros Hd. unfold internal_memory_recall, get_logs_by_date, bind, emit, read_db, ret.
  rewrite Hd. simpl. destruct (select_by_window _ _ _); simpl; [by eexists _, _|].
  rewrite call_llm_run. simpl. by eexists _, _.
Qed.

Lemma demo_conclude_directive user messages (w : World Script) :
  exists evidence w',
    conclude rt fake_llm_step time_time user messages demo_directive w
    = (Ok (fake_llm (render (messages
                               ++ [assistant_msg demo_directive; evidence_msg evidence]))),
       w').
Proof.
  unfold conclude, second_reason, bind, print, emit. rewrite demo_directive_found.
  match goal with |- context [internal_memory_recall _ _ ?dt ?q ?w0] =>
    destruct (demo_recall_returns dt q w0 _ _ _ demo_date_valid) as (evidence & w1 & ->)
  end.
  rewrite call_llm_run. cbn [fst snd fake_llm_step]. rewrite add_chat_run.
  by eexists _, _.
Qed.


Lemma render_contains n messages m :
  m ∈ messages -> contains n (msg_content m) = true -> contains n (render messages) = true.
Proof.
  intros Hin Hc. unfold render. eapply contains_join; [|exact Hc].
  by apply list_elem_of_fmap_2.
Qed.

(** X15: with the demonstration [fake_llm], an input that holds the
    recall phrase makes [think_and_reply] return the directive text itself:
    the second prompt repeats the input, so the second answer is the
    directive again, and it is returned unparsed. *)
Theorem demo_recall_question_echoes_directive input user (w : World Script) :
  contains recall_phrase input = true ->
  (think_and_reply rt fake_llm_step time_time input user w).1 = Ok demo_directive.
Proof.
  intros Hin.
  set (messages := history_at rt time_time input user w ++ [user_msg input]).
  assert (forall more, contains recall_phrase (render (messages ++ more)) = true) as Hphrase.
  { intros more. apply (render_contains _ _ (user_msg input)); [|done].
    unfold messages. rewrite !elem_of_app, list_elem_of_singleton. auto. }
  rewrite think_and_reply_run. unfold first_reply. fold messages.
  cbn [fst fake_llm_step]. rewrite fake_llm_cases.
  pose proof (Hphrase []) as Hfirst. rewrite app_nil_r in Hfirst. rewrite Hfirst.
  destruct (demo_conclude_directive user messages
              (after_first_reason rt fake_llm_step time_time input user w))
    as (evidence & w' & ->).
  cbn [fst]. by rewrite fake_llm_cases, Hphrase.
Qed.


End Demo.

Lemma same_turn_refl r : same_turn r r.
Proof. unfold same_turn. tauto. Qed.

Lemma same_turn_trans r1 r2 r3 : same_turn r1 r2 -> same_turn r2 r3 -> same_turn r1 r3.
Proof.
  unfold same_turn. intros (?&?&?&?&?&?) (?&?&?&?&?&?).
  split_and!; try congruence. destruct H4, H10; [left|right|right|right]; congruence.
Qed.

Lemma same_turn_mark ids r : same_turn r (mark ids r).
Proof.
  unfold mark. case_bool_decide; [|apply same_turn_refl].
  unfold same_turn, set_summarized. simpl. tauto.
Qed.

Global Instance durable_preorder : PreOrder durable.
Proof.
  split.
  - intros d i r Hr. exists r. split; [done|apply same_turn_refl].
  - intros d1 d2 d3 H12 H23 i r Hr.
    destruct (H12 i r Hr) as (r2 & Hr2 & Hs2).
    destruct (H23 i r2 Hr2) as (r3 & Hr3 & Hs3).
    exists r3. split; [done|]. by eapply same_turn_trans.
Qed.

Lemma db_step_durable d d' : db_step d d' -> durable d d'.
Proof.
  destruct 1; intros i row Hrow.
  - exists row. split; [|apply same_turn_refl]. simpl. by apply lookup_app_l_Some.
  - exists row. split; [done|apply same_turn_refl].
  - exists (mark (log_id <$> batch_of (select_unsummarized user d)) row).
    split; [|apply same_turn_mark]. simpl. by rewrite list_lookup_fmap, Hrow.
Qed.

Lemma db_steps_durable d d' : rtc db_step d d' -> durable d d'.
Proof.
  induction 1 as [|d1 d2 d3 Hstep _ IH]; [done|].
  etrans; [by apply db_step_durable|done].
Qed.

Section HistorianComposes.
Context {E : Type}.
Variable rt : Runtime.
Variable llm : str -> E -> option str * E.
Variable time_time : E -> Z * E.

Local Open Scope engine_scope.

(** X17: no entry point deletes, moves or edits a recorded turn: after
    [think_and_reply], [try_summarize], [internal_memory_recall] or a round
    of [main], returned or raised, every row is at the position it had, with
    its id, user, role, content and timestamp, and with its flag as it was
    or set. *)
Theorem recorded_turns_are_durable (w : World E) :
  (forall input user,
     durable (db w) (db (think_and_reply rt llm time_time input user w).2))
  /\ (forall user, durable (db w) (db (try_summarize rt llm user w).2))
  /\ (forall date query,
        durable (db w) (db (internal_memory_recall rt llm date query w).2))
  /\ (forall msg, durable (db w) (db (main_turn rt llm time_time msg w).2)).
Proof.
  split_and!; intros; apply db_steps_durable.
  - apply (steps_think_and_reply rt llm time_time input user w).
  - apply (steps_try_summarize rt llm user w).
  - apply (steps_internal_memory_recall rt llm date query w).
  - apply (steps_main_turn rt llm time_time msg w).
Qed.

Lemma summary_written_logs logs s d :
  chat_logs (summary_written rt logs s d) = chat_logs d.
Proof. unfold summary_written. by destruct (contains _ _). Qed.

Lemma uncompacted_summary_written user logs s d :
  uncompacted user (summary_written rt logs s d) = uncompacted user d.
Proof. unfold uncompacted. by rewrite summary_written_logs. Qed.

(** How a trigger check that returns leaves the tables. *)
Lemma try_summarize_returns user (w w1 : World E) :
  NoDup (log_id <$> chat_logs (db w)) ->
  try_summarize rt llm user w = (Ok tt, w1) ->
  ((length (select_unsummarized user (db w)) <= 31)%nat /\ db w1 = db w)
  \/ ((32 <= length (select_unsummarized user (db w)))%nat
      /\ length (uncompacted user (db w1)) = 2%nat
      /\ exists s,
           db w1 = update_summarized
                     (log_id <$> batch_of (select_unsummarized user (db w)))
                     (summary_written rt (batch_of (select_unsummarized user (db w))) s
                        (db w))).
Proof.
  intros Hkeys Hrun.
  destruct (decide (SUMMARIZE_THRESHOLD + 2
                    <= length (select_unsummarized user (db w)))%nat) as [Hge|Hlt].
  - right. rewrite try_summarize_fires in Hrun by done.
    set (logs := select_unsummarized user (db w)) in *.
    set (w0 := with_trace w _) in Hrun.
    pose proof (batch_of_nonempty logs Hge) as Hne.
    unfold SUMMARIZE_THRESHOLD in Hge.
    destruct (llm (historian_prompt rt (batch_of logs)) (env w0)) as [[s|] e'] eqn:Hllm.
    + rewrite (run_historian_ai_ok rt llm _ w0 s e' Hne Hllm) in Hrun.
      injection Hrun as <-. simpl. split; [lia|]. split; [|by exists s].
      assert (uncompacted user
                (update_summarized (log_id <$> batch_of logs)
                   (summary_written rt (batch_of logs) s (db w)))
              ≡ₚ drop (length logs - 2) logs) as ->.
      { rewrite update_summarized_uncompacted, uncompacted_summary_written.
        rewrite <-update_summarized_uncompacted. by apply compact_uncompacted. }
      rewrite length_drop. lia.
    + by rewrite (run_historian_ai_fail rt llm _ w0 e' Hne Hllm) in Hrun.
  - left. unfold SUMMARIZE_THRESHOLD in Hlt. split; [lia|].
    rewrite try_summarize_below in Hrun by (unfold SUMMARIZE_THRESHOLD; lia).
    by injection Hrun as <-.
Qed.

(** X18: after a trigger check that returned, at most 31 turns of the
    user are uncompacted, and a second check right after it does nothing but
    read the backlog. *)
Theorem second_check_is_idle user (w w1 : World E) :
  NoDup (log_id <$> chat_logs (db w)) ->
  try_summarize rt llm user w = (Ok tt, w1) ->
  (length (uncompacted user (db w1)) <= 31)%nat
  /\ try_summarize rt llm user w1 = (Ok tt, with_trace w1 (trigger_events user)).
Proof.
  intros Hkeys Hrun.
  assert (length (uncompacted user (db w1)) <= 31)%nat as Hlen.
  { destruct (try_summarize_returns user w w1 Hkeys Hrun) as [[Hle ->]|(_ & -> & _)]; [|lia].
    by rewrite <-select_unsummarized_Permutation. }
  split; [done|]. apply try_summarize_below.
  rewrite select_unsummarized_Permutation. unfold SUMMARIZE_THRESHOLD. lia.
Qed.

Lemma filter_mark_other (P : ChatLog -> Prop) `{!forall r, Decision (P r)} ids
    (l : list ChatLog) :
  (forall r, P (mark ids r) <-> P r) ->
  (forall r, r ∈ l -> P r -> log_id r ∉ ids) ->
  filter P (mark ids <$> l) = filter P l.
Proof.
  intros Hiff. induction l as [|r l IH]; intros Hout; [done|].
  rewrite fmap_cons, !filter_cons.
  rewrite IH by (intros r' Hr'; apply Hout; by right).
  destruct (decide (P r)) as [Hp|Hp].
  - rewrite decide_True by (by apply Hiff).
    rewrite mark_unlisted; [done|]. apply Hout; [by left|done].
  - by rewrite decide_False by (by rewrite Hiff).
Qed.

(** Whatever the outcome, a trigger check marks nothing or the batch. *)
Lemma try_summarize_marks user (w : World E) :
  exists ids,
    (ids = [] \/ ids = log_id <$> batch_of (select_unsummarized user (db w)))
    /\ chat_logs (db (try_summarize rt llm user w).2) = mark ids <$> chat_logs (db w).
Proof.
  destruct (decide (SUMMARIZE_THRESHOLD + 2
                    <= length (select_unsummarized user (db w)))%nat) as [Hge|Hlt].
  - rewrite try_summarize_fires by done.
    set (logs := select_unsummarized user (db w)) in *.
    set (w0 := with_trace w _).
    pose proof (batch_of_nonempty logs Hge) as Hne.
    destruct (llm (historian_prompt rt (batch_of logs)) (env w0)) as [[s|] e'] eqn:Hllm.
    + rewrite (run_historian_ai_ok rt llm _ w0 s e' Hne Hllm). simpl.
      exists (log_id <$> batch_of logs). split; [by right|].
      by rewrite summary_written_logs.
    + rewrite (run_historian_ai_fail rt llm _ w0 e' Hne Hllm). simpl.
      exists []. split; [by left|]. symmetry. apply (update_summarized_nil (db w)).
  - rewrite try_summarize_below by lia. simpl.
    exists []. split; [by left|]. symmetry. apply (update_summarized_nil (db w)).
Qed.

(** X19: a trigger check for one user leaves the turns of every other
    user as they are, flags included, whatever its outcome. *)
Theorem check_leaves_other_users user other (w : World E) :
  NoDup (log_id <$> chat_logs (db w)) ->
  other <> user ->
  turns_of other (db (try_summarize rt llm user w).2) = turns_of other (db w).
Proof.
  intros Hkeys Hne.
  destruct (try_summarize_marks user w) as (ids & Hids & Hlogs).
  unfold turns_of. rewrite Hlogs. apply filter_mark_other.
  - intros r. by rewrite mark_user_id.
  - intros r Hr Hu Hin. destruct Hids as [Hids|Hids]; subst ids;
      [by apply elem_of_nil in Hin|].
    apply list_elem_of_fmap in Hin as (b & Hid & Hb).
    assert (b ∈ uncompacted user (db w)) as Hb'.
    { rewrite <-select_unsummarized_Permutation. eapply subseteq_take, Hb. }
    apply list_elem_of_filter in Hb' as [[Hbu _] Hbl].
    assert (r = b) by (eapply fmap_inj_on; eauto). congruence.
Qed.
End HistorianComposes.

Section MainFacts.
Context {E : Type}.
Variable rt : Runtime.
Variable llm : str -> E -> option str * E.
Variable time_time : E -> Z * E.
Variable lower : str -> str.

Local Open Scope engine_scope.

Lemma uncompacted_two_more user r1 c1 t1 r2 c2 t2 d :
  length (uncompacted user (insert_chat user r2 c2 t2 (insert_chat user r1 c1 t1 d)))
  = S (S (length (uncompacted user d))).
Proof.
  unfold uncompacted. simpl. rewrite !filter_app, !length_app, !filter_cons, !filter_nil.
  rewrite !decide_True by done. simpl. lia.
Qed.

Lemma turns_two_more user r1 c1 t1 r2 c2 t2 d :
  length (turns_of user (insert_chat user r2 c2 t2 (insert_chat user r1 c1 t1 d)))
  = S (S (length (turns_of user d))).
Proof.
  unfold turns_of. simpl. rewrite !filter_app, !length_app, !filter_cons, !filter_nil.
  rewrite !decide_True by done. simpl. lia.
Qed.

(** A round of [main] that returns: the turn returned some reply, then the
    check returned. *)
Lemma main_turn_returns msg (w w' : World E) :
  main_turn rt llm time_time msg w = (Ok tt, w') ->
  exists reply w1 t2,
    think_and_reply rt llm time_time msg DEFAULT_USER w = (Ok reply, w1)
    /\ db w1 = insert_chat DEFAULT_USER (u "assistant") reply t2
                 (recorded time_time msg DEFAULT_USER w)
    /\ try_summarize rt llm DEFAULT_USER (with_trace w1 [EvPrint (u "AI: " ++ reply)])
       = (Ok tt, w').
Proof.
  unfold main_turn, bind. intros Hrun.
  pose proof (think_and_reply_db rt llm time_time msg DEFAULT_USER w) as Hdb.
  destruct (think_and_reply rt llm time_time msg DEFAULT_USER w) as [[reply|e] w1];
    [|discriminate].
  simpl in Hdb. destruct Hdb as [t2 Hdb]. by exists reply, w1, t2.
Qed.

(** X20: a round of [main] that returns, started with at most 31
    uncompacted turns of the default user, ends with between 2 and 31 of
    them, has recorded two more turns of that user, and keeps the invariant
    of the table. *)
Theorem main_round_bounds_backlog msg (w w' : World E) :
  db_inv (db w) ->
  (length (uncompacted DEFAULT_USER (db w)) <= 31)%nat ->
  main_turn rt llm time_time msg w = (Ok tt, w') ->
  db_inv (db w')
  /\ (2 <= length (uncompacted DEFAULT_USER (db w')) <= 31)%nat
  /\ length (turns_of DEFAULT_USER (db w'))
     = S (S (length (turns_of DEFAULT_USER (db w)))).
Proof.
  intros Hinv Hlen Hrun.
  assert (db_inv (db w')) as Hinv'.
  { eapply db_steps_inv; [|exact Hinv].
    pose proof (steps_main_turn rt llm time_time msg w) as Hs.
    by rewrite Hrun in Hs. }
  split; [done|].
  destruct (main_turn_returns msg w w' Hrun) as (reply & w1 & t2 & Hturn & Hdb & Hcheck).
  assert (NoDup (log_id <$> chat_logs (db w1))) as Hkeys.
  { pose proof (steps_think_and_reply rt llm time_time msg DEFAULT_USER w) as Hs.
    rewrite Hturn in Hs. by destruct (db_steps_inv _ _ Hs Hinv) as [[? _] _]. }
  assert (length (uncompacted DEFAULT_USER (db w1))
          = S (S (length (uncompacted DEFAULT_USER (db w))))) as Hun
    by (rewrite Hdb; apply uncompacted_two_more).
  assert (length (turns_of DEFAULT_USER (db w1))
          = S (S (length (turns_of DEFAULT_USER (db w))))) as Htu
    by (rewrite Hdb; apply turns_two_more).
  pose proof (try_summarize_marks rt llm DEFAULT_USER
                (with_trace w1 [EvPrint (u "AI: " ++ reply)])) as (ids & _ & Hmark).
  rewrite Hcheck in Hmark. simpl in Hmark.
  split.
  - destruct (try_summarize_returns rt llm DEFAULT_USER
                (with_trace w1 [EvPrint (u "AI: " ++ reply)]) w' Hkeys Hcheck)
      as [[Hle Hsame]|(_ & Htwo & _)]; simpl in *.
    + rewrite Hsame. rewrite select_unsummarized_Permutation in Hle. lia.
    + lia.
  - unfold turns_of at 1. rewrite Hmark.
    change (filter _ (mark ids <$> chat_logs (db w1)))
      with (turns_of DEFAULT_USER (update_summarized ids (db w1))).
    by rewrite update_summarized_turns.
Qed.

(** X21: two batches whose first turns fall on one local date share the
    summary key: after the Historian has run on both, the summary of that
    date is the second answer, the first being lost, unless the second
    answer carries [NO_EVENT], in which case the first stays. *)
Theorem later_summary_replaces_earlier logs1 logs2 (w : World E) s1 s2 e1 e2 :
  logs1 <> [] -> logs2 <> [] ->
  historian_date rt logs2 = historian_date rt logs1 ->
  llm (historian_prompt rt logs1) (env w) = (Some s1, e1) ->
  llm (historian_prompt rt logs2) e1 = (Some s2, e2) ->
  contains NO_EVENT s1 = false ->
  summaries (db ((run_historian_ai rt llm logs1 ;; run_historian_ai rt llm logs2) w).2)
    !! historian_date rt logs1
  = Some (if contains NO_EVENT s2 then s1 else s2).
Proof.
  intros Hne1 Hne2 Hdate Hllm1 Hllm2 Hs1. unfold bind.
  rewrite (run_historian_ai_ok rt llm logs1 w s1 e1 Hne1 Hllm1).
  erewrite (run_historian_ai_ok rt llm logs2 _ s2 e2 Hne2) by exact Hllm2.
  simpl. unfold summary_written. rewrite Hs1, Hdate.
  destruct (contains NO_EVENT s2); simpl; apply lookup_insert_eq.
Qed.

Lemma durable_keeps_turn d d' r :
  durable d d' -> r ∈ chat_logs d ->
  exists r', r' ∈ chat_logs d' /\ same_turn r r'.
Proof.
  intros Hd Hr. apply list_elem_of_lookup in Hr as [i Hi].
  destruct (Hd i r Hi) as (r' & Hi' & Hs). exists r'. split; [|done].
  by eapply list_elem_of_lookup_2.
Qed.

(** X22: a run of the loop of [main] in which no round raises has
    recorded two turns of the default user for each line before the first
    [exit]/[quit], holds a user turn with the text of each of these lines,
    ends by the command unless every line was served, and has kept every
    turn recorded before. *)
Theorem main_loop_records lines (w w' : World E) st :
  db_inv (db w) ->
  main_loop rt llm time_time lower lines w = (Ok st, w') ->
  length (turns_of DEFAULT_USER (db w'))
  = (length (turns_of DEFAULT_USER (db w)) + 2 * length (served lower lines))%nat
  /\ (forall line, line ∈ served lower lines ->
        exists r, r ∈ chat_logs (db w') /\ user_id r = DEFAULT_USER
                  /\ role r = u "user" /\ content r = line)
  /\ (st = EndOfInput <-> served lower lines = lines)
  /\ durable (db w) (db w').
Proof.
  revert w. induction lines as [|msg rest IH]; intros w Hinv Hrun.
  - cbn in Hrun. injection Hrun as <- <-. simpl.
    split; [lia|]. split; [by intros ? ?%elem_of_nil|]. split; [done|done].
  - cbn [main_loop served] in *. unfold bind at 1 in Hrun. cbn in Hrun.
    destruct (is_exit_command lower msg).
    + cbn in Hrun. injection Hrun as <- <-. simpl.
      split; [lia|]. split; [by intros ? ?%elem_of_nil|]. split; [done|done].
    + unfold bind at 1 in Hrun.
      destruct (main_turn rt llm time_time msg _) as [[[]|e] w1] eqn:Hround;
        [|discriminate].
      set (w0 := {| db := db w; env := env w; trace := trace w ++ [EvPrint (u "你: ")] |})
        in *.
      assert (db_inv (db w0)) as Hinv0 by done.
      assert (durable (db w0) (db w1)) as Hdur.
      { apply db_steps_durable.
        pose proof (steps_main_turn rt llm time_time msg w0) as Hs. by rewrite Hround in Hs. }
      assert (db_inv (db w1)) as Hinv1.
      { eapply db_steps_inv; [|exact Hinv0].
        pose proof (steps_main_turn rt llm time_time msg w0) as Hs. by rewrite Hround in Hs. }
      destruct (IH w1 Hinv1 Hrun) as (Hlen & Hserved & Hend & Hdur').
      destruct (main_turn_returns msg w0 w1 Hround)
        as (reply & w2 & t2 & Hturn & Hdb & Hcheck).
      pose proof (try_summarize_marks rt llm DEFAULT_USER
                    (with_trace w2 [EvPrint (u "AI: " ++ reply)])) as (ids & _ & Hmark).
      rewrite Hcheck in Hmark. simpl in Hmark.
      assert (length (turns_of DEFAULT_USER (db w1))
              = S (S (length (turns_of DEFAULT_USER (db w))))) as Htu.
      { unfold turns_of at 1. rewrite Hmark.
        change (filter _ (mark ids <$> chat_logs (db w2)))
          with (turns_of DEFAULT_USER (update_summarized ids (db w2))).
        rewrite update_summarized_turns, Hdb. apply turns_two_more. }
      split; [simpl; lia|]. split; [|split].
      * intros line [->|Hin]%elem_of_cons; [|by apply Hserved].
        assert (recorded_turn DEFAULT_USER (u "user") msg (time_time (env w0)).1 (db w0)
                ∈ chat_logs (db w2)) as Hrow.
        { rewrite Hdb. simpl. rewrite !elem_of_app, !list_elem_of_singleton. auto. }
        assert (mark ids (recorded_turn DEFAULT_USER (u "user") msg
                            (time_time (env w0)).1 (db w0)) ∈ chat_logs (db w1)) as Hrow1.
        { rewrite Hmark. by apply list_elem_of_fmap_2. }
        destruct (durable_keeps_turn _ _ _ Hdur' Hrow1) as (r' & Hr' & Hsame).
        exists r'. split; [done|].
        destruct Hsame as (_ & Hu & Hro & Hc & _).
        pose proof (same_turn_mark ids (recorded_turn DEFAULT_USER (u "user") msg
                                          (time_time (env w0)).1 (db w0)))
          as (_ & Hu0 & Hro0 & Hc0 & _).
        rewrite Hu, Hu0, Hro, Hro0, Hc, Hc0. done.
      * rewrite Hend. split; [by intros ->|by intros [= ?]].
      * by etrans.
Qed.
End MainFacts.



Lemma sorted_desc_reverse (l : list ChatLog) :
  StronglySorted ts_ge l -> StronglySorted ts_le (reverse l).
Proof.
  induction 1 as [|x l _ IH Hall]; [constructor|].
  rewrite reverse_cons. apply StronglySorted_app_2; [|done|repeat constructor].
  intros a b Ha Hb. apply list_elem_of_singleton in Hb. subst b.
  rewrite elem_of_reverse in Ha. rewrite Forall_forall in Hall. exact (Hall a Ha).
Qed.

Section StoreRoundTrips.
Context {E : Type}.
Variable rt : Runtime.
Variable llm : str -> E -> option str * E.
Variable time_time : E -> Z * E.

Local Open Scope engine_scope.


(** X7: [get_formatted_history] always returns and leaves the tables as
    they are; it renders the rows of [get_recent_history], oldest first, each
    with its role and with its content after a tag: [[HH:MM]] when the row's
    local date is the local date of the clock, [[mm-dd HH:MM]] otherwise. *)
Theorem formatted_history_is_oldest_first user limit (w : World E) :
  exists rows now w',
    get_formatted_history rt time_time user limit w = (Ok (format_row rt now <$> rows), w')
    /\ db w' = db w
    /\ trace w' = trace w ++ [EvGetRecent user limit]
    /\ now = localtime rt (time_time (env w)).1
    /\ rows ≡ₚ select_recent user limit (db w)
    /\ StronglySorted ts_le rows
    /\ length rows = (limit `min` length (turns_of user (db w)))%nat
    /\ Forall (fun row =>
                 msg_role (format_row rt now row) = role row
                 /\ msg_content (format_row rt now row)
                    = u "["
                        ++ (if bool_decide (tm_date (localtime rt (timestamp row)) = tm_date now)
                            then strftime_HM (localtime rt (timestamp row))
                            else strftime_mdHM (localtime rt (timestamp row)))
                        ++ u "] " ++ content row) rows.
Proof.
  exists (reverse (select_recent user limit (db w))), (localtime rt (time_time (env w)).1).
  exists {| db := db w; env := (time_time (env w)).2;
            trace := trace w ++ [EvGetRecent user limit] |}.
  split.
  - unfold get_formatted_history, get_recent_history, bind, emit, read_db, clock, ret.
    simpl. by destruct (time_time (env w)).
  - simpl. split; [done|]. split; [done|]. split; [done|].
    split; [apply reverse_Permutation|]. split; [|split].
    + apply sorted_desc_reverse. unfold select_recent.
      pose proof (order_by_desc_sorted (filter (fun r => user_id r = user) (chat_logs (db w))))
        as Hs.
      rewrite <-(take_drop limit (order_by_timestamp_desc _)) in Hs.
      by eapply StronglySorted_app_1_l.
    + rewrite length_reverse. unfold select_recent, order_by_timestamp_desc.
      by rewrite length_take, order_by_length.
    + apply Forall_forall. intros row _. split; done.
Qed.
End StoreRoundTrips.

Lemma reachable_chat n w :
  reachable utc fake_llm_step script_time w ->
  reachable utc fake_llm_step script_time (chat n w).
Proof.
  revert w. induction n as [|n IH]; intros w Hw; [done|].
  simpl. apply IH. by constructor.
Qed.

Lemma first_turn_in_busy : first_turn ∈ chat_logs (db busy).
Proof. vm_compute. constructor. Qed.


Lemma save_summary_last_write_wins_witness :
  summaries (db (save_summary (u "2026年02月27日") (u "a") busy).2) !! u "2026年02月26日"
  = summaries (db busy) !! u "2026年02月26日".
Proof.
  destruct (save_summary_last_write_wins (u "2026年02月27日") (u "2026年02月26日")
              (u "a") (u "b") busy) as (_ & Hother & _).
  apply Hother. intros Heq. vm_compute in Heq. discriminate Heq.
Defined.




Lemma directive_found_inside_text_witness :
  re_search utc (u "Let me look. " ++ directive (u "2026-02-26") (u "cats") ++ u " One moment.")
  = Some (u "2026-02-26", u "cats").
Proof.
  apply directive_found_inside_text.
  - apply (bool_decide_unpack _). vm_compute. exact I.
  - vm_compute. reflexivity.
  - apply (bool_decide_unpack _). vm_compute. exact I.
  - apply (bool_decide_unpack _). vm_compute. exact I.
Defined.

Lemma query_ends_at_bracket_or_newline_witness :
  re_search utc (directive (u "2026-02-26") (u "cats" ++ 93%N :: u " and dogs") ++ [])
  = Some (u "2026-02-26", u "cats")
  /\ re_search utc (directive (u "2026-02-26") (u "cats" ++ nl :: u "and dogs") ++ []) = None.
Proof.
  destruct (query_ends_at_bracket_or_newline utc (u "2026-02-26") (u "cats") (u " and dogs") [])
    as [Hcut _];
    [vm_compute; reflexivity
    |apply (bool_decide_unpack _); vm_compute; exact I
    |apply (bool_decide_unpack _); vm_compute; exact I|].
  destruct (query_ends_at_bracket_or_newline utc (u "2026-02-26") (u "cats") (u "and dogs") [])
    as [_ Hnone];
    [vm_compute; reflexivity
    |apply (bool_decide_unpack _); vm_compute; exact I
    |apply (bool_decide_unpack _); vm_compute; exact I|].
  split; [exact Hcut|].
  apply Hnone; apply (bool_decide_unpack _); vm_compute; exact I.
Defined.

Lemma demo_recall_question_echoes_directive_witness :
  (think_and_reply utc fake_llm_step script_time (u "我们昨天聊了什么？") DEFAULT_USER
     (start empty_db quiet)).1
  = Ok demo_directive.
Proof. apply demo_recall_question_echoes_directive. vm_compute. reflexivity. Defined.

Lemma second_check_is_idle_witness :
  try_summarize utc fake_llm_step DEFAULT_USER
    (try_summarize utc fake_llm_step DEFAULT_USER busy).2
  = (Ok tt, with_trace (try_summarize utc fake_llm_step DEFAULT_USER busy).2
              (trigger_events DEFAULT_USER)).
Proof.
  apply (second_check_is_idle utc fake_llm_step DEFAULT_USER busy).
  - exact busy_keys.
  - vm_compute. reflexivity.
Defined.

Lemma check_leaves_other_users_witness :
  turns_of guest (db (try_summarize utc fake_llm_step DEFAULT_USER shared).2)
  = turns_of guest (db shared).
Proof.
  apply check_leaves_other_users.
  - apply (bool_decide_unpack _). vm_compute. exact I.
  - intros Heq. vm_compute in Heq. discriminate Heq.
Defined.

Lemma main_round_bounds_backlog_witness :
  (2 <= length (uncompacted DEFAULT_USER
                  (db (main_turn utc fake_llm_step script_time (u "hello") nearly_full).2))
   <= 31)%nat.
Proof.
  destruct (main_round_bounds_backlog utc fake_llm_step script_time (u "hello") nearly_full
              (main_turn utc fake_llm_step script_time (u "hello") nearly_full).2)
    as (_ & Hbound & _).
  - apply (reachable_inv utc fake_llm_step script_time). apply reachable_chat. constructor.
  - vm_compute. lia.
  - vm_compute. reflexivity.
  - exact Hbound.
Defined.

Lemma later_summary_replaces_earlier_witness :
  let logs := batch_of (select_unsummarized DEFAULT_USER (db busy)) in
  summaries (db (bind (run_historian_ai utc script_llm logs)
                      (fun _ => run_historian_ai utc script_llm logs) two_answers).2)
    !! historian_date utc logs
  = Some (u "second account").
Proof.
  intros logs.
  rewrite (later_summary_replaces_earlier utc script_llm logs logs two_answers
             (u "first account") (u "second account")
             {| replies := [Some (u "second account")]; now := t0 |}
             {| replies := []; now := t0 |}).
  - vm_compute. reflexivity.
  - vm_compute. discriminate.
  - vm_compute. discriminate.
  - reflexivity.
  - vm_compute. reflexivity.
  - vm_compute. reflexivity.
  - vm_compute. reflexivity.
Defined.

Lemma main_loop_records_witness :
  length (turns_of DEFAULT_USER
            (db (main_loop utc fake_llm_step script_time ascii_lower
                   [u "hello"; u "EXIT"; u "ignored"] (start empty_db quiet)).2))
  = 2%nat.
Proof.
  destruct (main_loop_records utc fake_llm_step script_time ascii_lower
              [u "hello"; u "EXIT"; u "ignored"] (start empty_db quiet)
              (main_loop utc fake_llm_step script_time ascii_lower
                 [u "hello"; u "EXIT"; u "ignored"] (start empty_db quiet)).2
              ByCommand) as (Hlen & _).
  - apply empty_db_inv.
  - vm_compute. reflexivity.
  - rewrite Hlen. vm_compute. reflexivity.
Defined.

Section TurnOutcomes.
Context {E : Type}.
Variable rt : Runtime.
Variable llm : str -> E -> option str * E.
Variable time_time : E -> Z * E.

(** X11: when the first reasoning call answers and [re.search] finds no
    directive in the answer, [think_and_reply] returns that answer, having
    recorded the user turn and the answer, in this order, made that one
    reasoning call and no recall. *)
Theorem reply_without_directive_is_final input user (w : World E) reply1 w2 :
  let messages := history_at rt time_time input user w ++ [user_msg input] in
  call_llm llm (render messages) (at_first_reason time_time input user w)
    = (Ok reply1, w2) ->
  re_search rt reply1 = None ->
  exists w' t1 t2 evs,
    think_and_reply rt llm time_time input user w = (Ok reply1, w')
    /\ chat_logs (db w')
       = chat_logs (db w)
           ++ [recorded_turn user (u "user") input t1 (db w);
               recorded_turn user (u "assistant") reply1 t2
                 (recorded time_time input user w)]
    /\ trace w' = trace w ++ evs
    /\ llm_calls evs = [(render messages, Some reply1)]
    /\ recalls evs = [].
Proof.
  intros messages H1 Hnone.
  pose proof (plain_reply_is_stored rt llm time_time input user w reply1 w2 H1 Hnone)
    as Hrun.
  apply call_llm_Ok in H1. subst w2. cbn [db env trace] in Hrun.
  eexists _, (time_time (env w)).1, _, _. split; [exact Hrun|].
  cbn [db trace at_first_reason]. split; [|split; [|split]].
  - unfold recorded at 1. cbn [insert_chat chat_logs]. rewrite <-app_assoc. reflexivity.
  - rewrite <-!app_assoc. reflexivity.
  - reflexivity.
  - reflexivity.
Qed.

(** X12: when the first answer holds a directive whose date [strptime]
    rejects, [think_and_reply] raises [ValueError]: the recall was started
    with that date and query, the user turn is recorded, and no assistant
    turn is. *)
Theorem unchecked_date_aborts_turn input user (w : World E) reply1 w2 date query :
  let messages := history_at rt time_time input user w ++ [user_msg input] in
  call_llm llm (render messages) (at_first_reason time_time input user w)
    = (Ok reply1, w2) ->
  re_search rt reply1 = Some (date, query) ->
  strptime rt date = None ->
  exists w' t1 evs,
    think_and_reply rt llm time_time input user w = (Raise ValueError, w')
    /\ chat_logs (db w')
       = chat_logs (db w) ++ [recorded_turn user (u "user") input t1 (db w)]
    /\ trace w' = trace w ++ evs
    /\ recalls evs = [(date, query)]
    /\ add_chats evs = [(user, u "user", input)].
Proof.
  intros messages H1 Hdir Hdate.
  destruct (invalid_date_raises rt llm time_time input user w reply1 w2 date query
              H1 Hdir Hdate) as [Hrun Hdb].
  apply call_llm_Ok in H1. subst w2.
  eexists _, (time_time (env w)).1, _. split; [exact Hrun|].
  cbn [db trace with_trace at_first_reason]. split; [|split; [|split]].
  - reflexivity.
  - rewrite <-!app_assoc. reflexivity.
  - reflexivity.
  - reflexivity.
Qed.
End TurnOutcomes.

Lemma reply_without_directive_is_final_witness :
  (think_and_reply utc script_llm script_time (u "hi") DEFAULT_USER day_first).1
  = Ok (u "[RECALL|26-02-2026|cats]").
Proof.
  destruct (reply_without_directive_is_final utc script_llm script_time (u "hi") DEFAULT_USER
              day_first (u "[RECALL|26-02-2026|cats]")
              (call_llm script_llm
                 (render (history_at utc script_time (u "hi") DEFAULT_USER day_first
                            ++ [user_msg (u "hi")]))
                 (at_first_reason script_time (u "hi") DEFAULT_USER day_first)).2)
    as (w' & t1 & t2 & evs & Hrun & _).
  - vm_compute. reflexivity.
  - vm_compute. reflexivity.
  - rewrite Hrun. reflexivity.
Defined.

Lemma unchecked_date_aborts_turn_witness :
  (think_and_reply utc script_llm script_time (u "hi") DEFAULT_USER thirteenth_month).1
  = Raise ValueError.
Proof.
  destruct (unchecked_date_aborts_turn utc script_llm script_time (u "hi") DEFAULT_USER
              thirteenth_month (u "[RECALL|2026-13-45|cats]")
              (call_llm script_llm
                 (render (history_at utc script_time (u "hi") DEFAULT_USER thirteenth_month
                            ++ [user_msg (u "hi")]))
                 (at_first_reason script_time (u "hi") DEFAULT_USER thirteenth_month)).2
              (u "2026-13-45") (u "cats")) as (w' & t1 & evs & Hrun & _).
  - vm_compute. reflexivity.
  - vm_compute. reflexivity.
  - vm_compute. reflexivity.
  - rewrite Hrun. reflexivity.
Defined.

